(** * workspace.py: a shallow embedding and its checked properties

    The program is a command line tool over the file system and a few
    subprocesses (git, grep).  The embedding keeps the source's shape:

    - a [str] is the [string] of its UTF-8 bytes, with Python's [split],
      [strip], [startswith] and [join] written out;
    - a [pathlib.Path] is its anchor and its parts;
    - the file system is a finite map from canonical absolute locations
      to nodes (file, directory, symbolic link), looked up by walking a
      path's parts and following links;
    - a command is a function from a state (file system, outside world,
      printed lines, subprocess invocations) to an outcome and a state;
      [sys.exit] and uncaught exceptions are outcomes;
    - subprocesses, the TOML parser and the shutil copies are parameters.
*)

From Stdlib Require Import String Ascii List ZArith Lia Bool.
From stdpp Require Import base option list gmap strings.

Local Open Scope string_scope.
Local Open Scope list_scope.

(* ===================================================================== *)
(** ** Strings *)
(* ===================================================================== *)

Module Str.

Definition nl : string := String (ascii_of_nat 10) "".
Definition esc : string := String (ascii_of_nat 27) "".
Definition dq : string := String (ascii_of_nat 34) "".

(** An empty [str] is false in a condition. *)
Definition truthy (s : string) : bool :=
  match s with "" => false | _ => true end.

(** [s.startswith(p)] *)
Fixpoint startswith (p s : string) : bool :=
  match p, s with
  | "", _ => true
  | String a p', String b s' => if Ascii.eqb a b then startswith p' s' else false
  | String _ _, "" => false
  end.

(** [s.split(sep)] for a non-empty [sep]: matches are taken left to
    right and do not overlap.  [skip] counts the bytes of a match that
    are still to be dropped, [cur] is the piece being read. *)
Fixpoint split_go (sep : string) (skip : nat) (cur s : string) : list string :=
  match s with
  | "" => [cur]
  | String c s' =>
      match skip with
      | S n => split_go sep n cur s'
      | O =>
          if startswith sep s
          then cur :: split_go sep (String.length sep - 1)%nat "" s'
          else split_go sep 0 (cur +:+ String c "") s'
      end
  end.

Definition split (sep s : string) : list string := split_go sep 0 "" s.

(** [sep.join(l)] *)
Fixpoint join (sep : string) (l : list string) : string :=
  match l with
  | [] => ""
  | [x] => x
  | x :: rest => x +:+ sep +:+ join sep rest
  end.

Definition of_bytes (l : list nat) : string :=
  string_of_list_ascii (map ascii_of_nat l).

Definition rev (s : string) : string :=
  string_of_list_ascii (List.rev (list_ascii_of_string s)).

Fixpoint drop (n : nat) (s : string) : string :=
  match n, s with
  | S n', String _ s' => drop n' s'
  | _, _ => s
  end.

(** The characters [str.strip()] removes, those for which [str.isspace]
    holds, each as its UTF-8 bytes: U+0009 to U+000D, U+001C to U+0020,
    U+0085, U+00A0, U+1680, U+2000 to U+200A, U+2028, U+2029, U+202F,
    U+205F and U+3000. *)
Definition whitespace : list string :=
  map of_bytes
    (map (fun n => [n]) (seq 9 5 ++ seq 28 5)
     ++ [[194; 133]; [194; 160]; [225; 154; 128]]
     ++ map (fun n => [226; 128; n]) (seq 128 11)
     ++ [[226; 128; 168]; [226; 128; 169]; [226; 128; 175]; [226; 129; 159];
         [227; 128; 128]])%nat.

(** The number of bytes of the character of [spaces] that [s] starts
    with; 0 when it starts with none. *)
Definition space_width (spaces : list string) (s : string) : nat :=
  match List.find (fun w => startswith w s) spaces with
  | Some w => String.length w
  | None => 0%nat
  end.

Fixpoint lstrip_go (spaces : list string) (fuel : nat) (s : string) : string :=
  match fuel with
  | O => s
  | S fuel' =>
      match space_width spaces s with
      | O => s
      | w => lstrip_go spaces fuel' (drop w s)
      end
  end.

Definition lstrip (s : string) : string := lstrip_go whitespace (String.length s) s.

(** From the right: the same on the bytes read backwards. *)
Definition rstrip (s : string) : string :=
  rev (lstrip_go (map rev whitespace) (String.length s) (rev s)).

Definition strip (s : string) : string := rstrip (lstrip s).

(** Whether the bytes are well-formed UTF-8: [need] continuation bytes
    are still to come, the next of them between [lo] and [hi].  Overlong
    forms, surrogates and what lies beyond U+10FFFF are refused, as the
    decoder of Python refuses them. *)
Fixpoint utf8_go (need lo hi : nat) (s : string) : bool :=
  match s with
  | "" => (need =? 0)%nat
  | String c s' =>
      let n := nat_of_ascii c in
      match need with
      | O =>
          if (n <? 128)%nat then utf8_go 0 128 191 s'
          else if ((194 <=? n) && (n <=? 223))%nat then utf8_go 1 128 191 s'
          else if (n =? 224)%nat then utf8_go 2 160 191 s'
          else if (n =? 237)%nat then utf8_go 2 128 159 s'
          else if ((225 <=? n) && (n <=? 239))%nat then utf8_go 2 128 191 s'
          else if (n =? 240)%nat then utf8_go 3 144 191 s'
          else if ((241 <=? n) && (n <=? 243))%nat then utf8_go 3 128 191 s'
          else if (n =? 244)%nat then utf8_go 3 128 143 s'
          else false
      | S k => if ((lo <=? n) && (n <=? hi))%nat then utf8_go k 128 191 s' else false
      end
  end.

Definition utf8 (s : string) : bool := utf8_go 0 128 191 s.

(** Universal newlines, as a file opened for reading in text mode has
    them: a carriage return, alone or followed by a line feed, is read
    as a line feed. *)
Fixpoint universal_newlines (s : string) : string :=
  match s with
  | "" => ""
  | String c s' =>
      if Ascii.eqb c (ascii_of_nat 13) then
        match s' with
        | String d s'' =>
            if Ascii.eqb d (ascii_of_nat 10)
            then String (ascii_of_nat 10) (universal_newlines s'')
            else String (ascii_of_nat 10) (universal_newlines s')
        | "" => String (ascii_of_nat 10) ""
        end
      else String c (universal_newlines s')
  end.

(** The text of a file read in text mode: its bytes decoded as UTF-8,
    with universal newlines; [None] is a [UnicodeDecodeError]. *)
Definition decode (bytes : string) : option string :=
  if utf8 bytes then Some (universal_newlines bytes) else None.

(** The lines of a text as [for line in f] yields them, the text being
    read with universal newlines: each keeps its line feed, the last one
    has none when the text does not end with one. *)
Fixpoint lines_go (cur s : string) : list string :=
  match s with
  | "" => match cur with "" => [] | _ => [cur] end
  | String c s' =>
      if Ascii.eqb c (ascii_of_nat 10)
      then (cur +:+ nl) :: lines_go "" s'
      else lines_go (cur +:+ String c "") s'
  end.

Definition lines (s : string) : list string := lines_go "" s.

(** Decimal rendering of a natural number, [str(n)]. *)
Definition digit (n : nat) : string := String (ascii_of_nat (48 + n)%nat) "".

Fixpoint of_nat_go (fuel n : nat) (acc : string) : string :=
  match fuel with
  | O => acc
  | S f =>
      let acc' := digit (n mod 10)%nat +:+ acc in
      if (n / 10 =? 0)%nat then acc' else of_nat_go f (n / 10)%nat acc'
  end.

Definition of_nat (n : nat) : string := of_nat_go (S n) n "".

End Str.

(* ===================================================================== *)
(** ** pathlib *)
(* ===================================================================== *)

(** A [Path]: whether it is anchored at the root, whether that root is
    written with two slashes, and its parts.  The constructor [Path(s)]
    drops empty and [.] parts; [..] is kept.  Of the slashes a path
    starts with, exactly two are kept as they are; three and more are
    one. *)
Record Path := Build_Path { absolute : bool; doubled : bool; parts : list string }.

(** The path of the given parts, from the root or not. *)
Definition mkPath (absolute : bool) (parts : list string) : Path :=
  Build_Path absolute false parts.

#[global] Instance Path_eq_dec : EqDecision Path.
Proof. solve_decision. Defined.

Definition keep_part (s : string) : bool :=
  negb (String.eqb s "" || String.eqb s ".").

Definition Path_of (s : string) : Path :=
  Build_Path (Str.startswith "/" s)
             (Str.startswith "//" s && negb (Str.startswith "///" s))
             (filter (fun c => keep_part c = true) (Str.split "/" s)).

(** [p / q] *)
Definition joinpath (p q : Path) : Path :=
  if absolute q then q else Build_Path (absolute p) (doubled p) (parts p ++ parts q).

Notation "p // s" := (joinpath p (Path_of s)) (at level 40, left associativity).

(** [str(p)] *)
Definition Path_str (p : Path) : string :=
  if absolute p then (if doubled p then "//" else "/") +:+ Str.join "/" (parts p)
  else match parts p with
       | [] => "."
       | _ => Str.join "/" (parts p)
       end.

(** [p.name] *)
Definition Path_name (p : Path) : string := List.last (parts p) "".

(** The limits of the operating system on names: a part of at most
    [NAME_MAX] bytes, none of them NUL, and a path of less than
    [PATH_MAX] bytes.  Beyond them every look-up fails, with
    ENAMETOOLONG or, for a NUL byte, with [ValueError]. *)
Definition NAME_MAX : nat := 255.
Definition PATH_MAX : nat := 4096.

Definition has_nul (part : string) : bool :=
  existsb (fun c => (nat_of_ascii c =? 0)%nat) (list_ascii_of_string part).

Definition name_fits (p : Path) : bool :=
  forallb (fun part => (String.length part <=? NAME_MAX)%nat && negb (has_nul part))
          (parts p)
  && (String.length (Path_str p) <? PATH_MAX)%nat.

(** [p.parent] *)
Definition Path_parent (p : Path) : Path :=
  Build_Path (absolute p) (doubled p) (removelast (parts p)).

(** Order of [sorted] on paths: the parts, compared one after the other
    as strings. *)
Fixpoint parts_leb (a b : list string) : bool :=
  match a, b with
  | [], _ => true
  | _ :: _, [] => false
  | x :: a', y :: b' =>
      match String.compare x y with
      | Lt => true
      | Gt => false
      | Eq => parts_leb a' b'
      end
  end.

Definition Path_leb (p q : Path) : bool :=
  match absolute p, absolute q with
  | false, true => true
  | true, false => false
  | _, _ => parts_leb (parts p) (parts q)
  end.

Fixpoint insert_sorted (p : Path) (l : list Path) : list Path :=
  match l with
  | [] => [p]
  | q :: l' => if Path_leb p q then p :: l else q :: insert_sorted p l'
  end.

Definition sorted (l : list Path) : list Path := foldr insert_sorted [] l.

(* ===================================================================== *)
(** ** The file system *)
(* ===================================================================== *)

(** Exceptions the program can meet.  [is_OSError] is the test of
    [except OSError]. *)
Inductive exn :=
  | FileExistsError
  | FileNotFoundError
  | NotADirectoryError
  | IsADirectoryError
  | PermissionError
  | OSError (msg : string)
  | KeyError (key : string)
  | TOMLDecodeError
  | ShutilError (msg : string)
  | RuntimeError (msg : string)
  | UnicodeDecodeError.

Definition is_OSError (e : exn) : bool :=
  match e with
  | FileExistsError | FileNotFoundError | NotADirectoryError
  | IsADirectoryError | PermissionError | OSError _ => true
  | KeyError _ | TOMLDecodeError | ShutilError _ | RuntimeError _
  | UnicodeDecodeError => false
  end.

Inductive node :=
  | File (content : string)
  | Dir
  | Link (target : Path).

(** Locations are the parts of a canonical absolute path; the root [[]]
    is a directory and is not stored. *)
Abbreviation location := (list string).
Abbreviation filesystem := (gmap (list string) node).

(** Where a path leads: to a node, to a free name in an existing
    directory, or nowhere. *)
Inductive located :=
  | Found (k : location) (n : node)
  | Vacant (k : location)
  | Lost (why : exn).

(** Path resolution as the kernel does it: from the directory [cur],
    part by part; [..] goes to the parent, a link met on the way is
    replaced by its target, and the last part is followed only when
    [follow] is set.  The fuel bounds the number of parts looked up (too
    long a walk is ELOOP). *)
Fixpoint walk (fuel : nat) (fs : filesystem) (follow : bool)
    (cur : location) (todo : list string) : located :=
  match todo with
  | [] => Found cur Dir
  | c :: rest =>
      match fuel with
      | O => Lost (OSError "ELOOP")
      | S fuel' =>
          if String.eqb c ".." then walk fuel' fs follow (removelast cur) rest
          else
            let k := cur ++ [c] in
            match fs !! k with
            | None =>
                match rest with [] => Vacant k | _ => Lost FileNotFoundError end
            | Some Dir => walk fuel' fs follow k rest
            | Some (File s) =>
                match rest with [] => Found k (File s) | _ => Lost NotADirectoryError end
            | Some (Link t) =>
                match rest, follow with
                | [], false => Found k (Link t)
                | _, _ =>
                    walk fuel' fs follow (if absolute t then [] else cur)
                         (parts t ++ rest)
                end
            end
      end
  end.

Definition walk_fuel : nat := 200.

(** [os.path.realpath], not strict: what cannot be looked up is kept as
    it is written. *)
Fixpoint realpath (fuel : nat) (fs : filesystem)
    (cur : location) (todo : list string) : location :=
  match todo with
  | [] => cur
  | c :: rest =>
      match fuel with
      | O => cur ++ todo
      | S fuel' =>
          if String.eqb c ".." then realpath fuel' fs (removelast cur) rest
          else
            match fs !! (cur ++ [c]) with
            | Some (Link t) =>
                realpath fuel' fs (if absolute t then [] else cur) (parts t ++ rest)
            | _ => realpath fuel' fs (cur ++ [c]) rest
            end
      end
  end.

(** The names in the directory at [k], in the order the map lists them
    ([os.listdir] promises no order either). *)
Definition listdir (k : location) (fs : filesystem) : list string :=
  omap (fun kn : location * node =>
          match kn.1 with
          | [] => None
          | _ => if decide (removelast kn.1 = k) then Some (List.last kn.1 "") else None
          end)
       (map_to_list fs).

(** The look-ups of a path stay within the limits of the operating
    system on names when the path is within them and so is the target of
    every symbolic link of the file system, which a look-up may have to
    go through. *)
Definition links_fit (fs : filesystem) : bool :=
  forallb (fun kn : location * node =>
             match kn.2 with Link t => name_fits t | _ => true end)
          (map_to_list fs).

Definition within_limits (p : Path) (fs : filesystem) : bool :=
  name_fits p && links_fit fs.

(* ===================================================================== *)
(** ** The process and what it calls *)
(* ===================================================================== *)

(** What [subprocess.run] gives back: a finished process with its return
    code and what it wrote (the decoded text under [text=True], the
    bytes without it), or the exception [subprocess.run] itself raised:
    the program could not be started, or its output did not decode
    under [text=True]. *)
Inductive completed :=
  | Completed (returncode : Z) (stdout stderr : string)
  | NotStarted (msg : string).

(** One repository table of the manifest, and the manifest.  A key that
    is absent is [None]. *)
Record repo_entry := mkRepo {
  repo_path : option string;
  repo_source : option string;
  repo_remote : option string }.

Record config := mkConfig {
  cfg_name : option string;
  cfg_description : option string;
  cfg_repos : option (list repo_entry) }.

(** The surroundings of one run of the script: the current directory,
    [Path.home()], the home directories of the users by name, [__file__],
    and the programs and library functions the script calls but does
    not define. *)
Record Env := mkEnv {
  World : Type;
  getcwd : location;
  home : Path;
  (** [pwd.getpwnam(user).pw_dir]; [None] is a user that is not known. *)
  getpwnam : string -> option Path;
  script_file : Path;
  (** [subprocess.run(argv, cwd=...)] *)
  subprocess_run : list string -> option Path -> filesystem -> World ->
                   completed * filesystem * World;
  (** [tomllib.load]; [None] is a [TOMLDecodeError]. *)
  tomllib_load : string -> option config;
  shutil_copy2 : Path -> Path -> filesystem -> exn + filesystem;
  shutil_copytree : Path -> Path -> filesystem -> exn + filesystem;
  shutil_rmtree : Path -> filesystem -> exn + filesystem;
  os_chmod : Path -> filesystem -> exn + filesystem }.

(** A subprocess invocation: its arguments and working directory. *)
Record call := mkCall { argv : list string; call_cwd : option Path }.

Record state (E : Env) := mkState {
  fs : filesystem;
  world : World E;
  out : list string;
  calls : list call }.

Arguments mkState {E}.
Arguments fs {E}.
Arguments world {E}.
Arguments out {E}.
Arguments calls {E}.

(** How a command ends: it returns, it calls [sys.exit], or an exception
    escapes. *)
Inductive outcome (A : Type) :=
  | Ret (a : A)
  | Exit (code : Z)
  | Raise (e : exn).

Arguments Ret {A}.
Arguments Exit {A}.
Arguments Raise {A}.

(** ANSI colors *)
Module Colors.
Definition CYAN : string := Str.esc +:+ "[96m".
Definition YELLOW : string := Str.esc +:+ "[93m".
Definition GREEN : string := Str.esc +:+ "[92m".
Definition RED : string := Str.esc +:+ "[91m".
Definition BLUE : string := Str.esc +:+ "[94m".
Definition BOLD : string := Str.esc +:+ "[1m".
Definition RESET : string := Str.esc +:+ "[0m".
End Colors.

(** The dictionary [check_repo] returns. *)
Record status := mkStatus {
  is_git_repo : bool;
  uncommitted : string;
  outgoing : string;
  incoming : string }.

Definition set_is_git_repo (b : bool) (r : status) : status :=
  mkStatus b (uncommitted r) (outgoing r) (incoming r).
Definition set_uncommitted (v : string) (r : status) : status :=
  mkStatus (is_git_repo r) v (outgoing r) (incoming r).
Definition set_outgoing (v : string) (r : status) : status :=
  mkStatus (is_git_repo r) (uncommitted r) v (incoming r).
Definition set_incoming (v : string) (r : status) : status :=
  mkStatus (is_git_repo r) (uncommitted r) (outgoing r) v.

(* ===================================================================== *)
(** ** A concrete environment *)
(* ===================================================================== *)

(** A small machine on which the commands can be run: the script lives
    in [/home/u/work], git can clone one remote, and the TOML parser
    knows the manifests below. *)
Module Demo.

Definition q (s : string) : string := Str.dq +:+ s +:+ Str.dq.

(** The text of a manifest with the given repository tables; each table
    is a list of keys and values. *)
Definition manifest_text (tables : list (list (string * string))) : string :=
  Str.join Str.nl
    (flat_map (fun t => "[[repos]]" :: map (fun kv => kv.1 +:+ " = " +:+ q kv.2) t) tables)
  +:+ Str.nl.

Definition lookup_key (k : string) (t : list (string * string)) : option string :=
  snd <$> List.find (fun kv => String.eqb kv.1 k) t.

Definition manifest_config (tables : list (list (string * string))) : config :=
  mkConfig None None
    (Some (map (fun t => mkRepo (lookup_key "path" t) (lookup_key "source" t)
                                (lookup_key "remote" t)) tables)).

(** The manifests of the demonstrations: a clone and a link (the
    scenario of the specification); an entry whose source is made by a
    later entry; an entry with neither remote nor source. *)
Definition scenario : list (list (string * string)) :=
  [ [("path", "repos/a"); ("remote", "https://x/a.git")];
    [("path", "repos/b"); ("source", "~/local/b")] ].

Definition forward : list (list (string * string)) :=
  [ [("path", "repos/a"); ("source", "ws/repos/b")];
    [("path", "repos/b"); ("source", "~/local/b")] ].

Definition scratch : list (list (string * string)) :=
  [ [("path", "repos/scratch")];
    [("path", "repos/b"); ("source", "~/local/b")] ].

Definition manifests : list (list (list (string * string))) :=
  [scenario; forward; scratch].

Definition description_only : string := "description = " +:+ q "notes" +:+ Str.nl.

Definition parse (text : string) : option config :=
  if String.eqb text description_only then Some (mkConfig None (Some "notes") None)
  else manifest_config <$> List.find (fun m => String.eqb (manifest_text m) text) manifests.

Definition work : location := ["home"; "u"; "work"].

(** git: [clone] knows one remote and makes a directory with a [.git]
    in it; [status] reports a change in a repository named [dirty]; no
    git can be started in a repository named [broken]. *)
Definition run (args : list string) (dir : option Path) (f : filesystem) (w : unit)
  : completed * filesystem * unit :=
  match args with
  | ["git"; "clone"; remote; target] =>
      if String.eqb remote "https://x/a.git" then
        let k := work ++ parts (Path_of target) in
        (Completed 0 "" "", <[k ++ [".git"] := Dir]> (<[k := Dir]> f), w)
      else (Completed 128 "" "fatal: repository not found", f, w)
  | "git" :: sub :: _ =>
      let name := from_option Path_name "" dir in
      if String.eqb name "broken" then (NotStarted "[Errno 13] Permission denied", f, w)
      else if String.eqb sub "status" && String.eqb name "dirty"
      then (Completed 0 (" M README.md" +:+ Str.nl) "", f, w)
      else (Completed 0 "" "", f, w)
  | "grep" :: _ => (Completed 0 ("../Notes/notes/demo.md" +:+ Str.nl) "", f, w)
  | _ => (NotStarted "No such file or directory", f, w)
  end.

(** The one user known by name besides the one who runs the script. *)
Definition known_user (user : string) : option Path :=
  if String.eqb user "guest" then Some (mkPath true ["home"; "guest"]) else None.

Definition env : Env :=
  mkEnv unit work (mkPath true ["home"; "u"]) known_user
        (mkPath true (work ++ ["workspace.py"]))
        run parse
        (fun _ _ f => inr f) (fun _ _ f => inr f) (fun _ f => inr f) (fun _ f => inr f).

Definition start (f : filesystem) : state env := @mkState env f tt [] [].

(** The directories every demonstration starts from. *)
Definition base : list (location * node) :=
  [ (["home"], Dir); (["home"; "u"], Dir); (["home"; "u"; "local"], Dir);
    (["home"; "u"; "local"; "b"], Dir); (work, Dir); (work ++ ["ws"], Dir) ].

Definition with_manifest (text : string) (more : list (location * node)) : filesystem :=
  list_to_map (base ++ (work ++ ["ws"; "workspace.toml"], File text) :: more).

(** A workspace with three repositories, for the status checker. *)
Definition repos_dir : location := work ++ ["ws"; "repos"].

Definition checked : filesystem :=
  with_manifest description_only
    ((repos_dir, Dir)
     :: flat_map (fun name => [(repos_dir ++ [name], Dir); (repos_dir ++ [name; ".git"], Dir)])
          ["broken"; "clean"; "dirty"]).

Definition repo (name : string) : Path := mkPath true (repos_dir ++ [name]).

(** A vault with one note for the workspace [demo], and the brief
    directory. *)
Definition note_text : string :=
  Str.join Str.nl ["---"; "workspace: demo"; "---"; "Today."] +:+ Str.nl.

Definition notes : location := ["home"; "u"; "Notes"; "notes"].
Definition brief : location := ["home"; "u"; "Dropbox"; "Apps"; "work-journal-reviewer"].

Definition vault : filesystem :=
  list_to_map
    (base ++ [ (["home"; "u"; "Notes"], Dir); (notes, Dir);
               (notes ++ ["demo.md"], File note_text);
               (["home"; "u"; "Dropbox"], Dir); (["home"; "u"; "Dropbox"; "Apps"], Dir);
               (brief, Dir);
               (work ++ ["demo"], Dir) ]).


Definition shared : filesystem :=
  with_manifest (manifest_text scenario)
    [ (work ++ [".claude"], Dir); (work ++ [".claude"; "agents"], Dir) ].

(** A git whose clone refuses a target that is taken, and the
    environment with it. *)
Definition careful_run (args : list string) (dir : option Path) (f : filesystem) (w : unit)
  : completed * filesystem * unit :=
  match args with
  | ["git"; "clone"; remote; target] =>
      let k := work ++ parts (Path_of target) in
      if String.eqb remote "https://x/a.git"
         && bool_decide (f !! k = None) && bool_decide (f !! (k ++ [".git"]) = None)
      then (Completed 0 "" "", <[k ++ [".git"] := Dir]> (<[k := Dir]> f), w)
      else (Completed 128 "" "fatal: destination path already exists", f, w)
  | _ => run args dir f w
  end.

Definition careful : Env :=
  mkEnv unit work (mkPath true ["home"; "u"]) known_user
        (mkPath true (work ++ ["workspace.py"]))
        careful_run parse
        (fun _ _ f => inr f) (fun _ _ f => inr f) (fun _ f => inr f) (fun _ f => inr f).

(** Environments that differ from [env] in the programs and the parser:
    one where no program can be started, one where every program
    prints nothing and fails, one whose git fails noisily, and one whose
    parser reads every manifest as two source entries, the second
    without a path. *)
Definition env_with
    (run' : list string -> option Path -> filesystem -> unit -> completed * filesystem * unit)
    (parse' : string -> option config) : Env :=
  mkEnv unit work (mkPath true ["home"; "u"]) known_user
        (mkPath true (work ++ ["workspace.py"]))
        run' parse'
        (fun _ _ f => inr f) (fun _ _ f => inr f) (fun _ f => inr f) (fun _ f => inr f).

Definition offline : Env :=
  env_with (fun _ _ f w => (NotStarted "No such file or directory: 'grep'", f, w)) parse.

Definition quiet : Env :=
  env_with (fun _ _ f w => (Completed 1 "" "", f, w)) parse.

(** A git whose [status] ends with an error after it has written to
    its standard output. *)
Definition noisy : Env :=
  env_with (fun args _ f w =>
              match args with
              | "git" :: "status" :: _ => (Completed 1 ("error: x" +:+ Str.nl) "", f, w)
              | _ => (Completed 0 "" "", f, w)
              end) parse.

Definition pathless : config :=
  mkConfig None None
    (Some [mkRepo (Some "repos/a") (Some "~/a") None; mkRepo None (Some "~/b") None]).

Definition careless : Env := env_with run (fun _ => Some pathless).

(** A parser that reads every manifest as one entry whose source is the
    empty string. *)
Definition blank : config :=
  mkConfig None None (Some [mkRepo (Some "repos/a") (Some "") None]).

Definition blanks : Env := env_with run (fun _ => Some blank).

End Demo.

Declare Scope prog_scope.
Delimit Scope prog_scope with prog.

(* ===================================================================== *)
(** ** The program *)
(* ===================================================================== *)

Section Program.

Context (E : Env).

(** *** Commands as state transformers *)

Definition M (A : Type) : Type := state E -> outcome A * state E.

Definition ret {A} (a : A) : M A := fun s => (Ret a, s).

Definition bind {A B} (m : M A) (f : A -> M B) : M B :=
  fun s =>
    match m s with
    | (Ret a, s') => f a s'
    | (Exit c, s') => (Exit c, s')
    | (Raise e, s') => (Raise e, s')
    end.

Notation "x ← y ; z" := (bind y (fun x => z))
  (at level 20, y at level 100, z at level 200, only parsing) : prog_scope.
Notation "x ;; z" := (bind x (fun _ => z))
  (at level 100, z at level 200, only parsing, right associativity) : prog_scope.

Local Open Scope prog_scope.

Definition sys_exit {A} (code : Z) : M A := fun s => (Exit code, s).
Definition raise {A} (e : exn) : M A := fun s => (Raise e, s).

(** [try: m except ...: h], where [h e] is [None] for an exception the
    clause does not name.  [sys.exit] passes through. *)
Definition try_except {A} (m : M A) (h : exn -> option (M A)) : M A :=
  fun s =>
    match m s with
    | (Raise e, s') => match h e with Some k => k s' | None => (Raise e, s') end
    | r => r
    end.

(** [print(line)]: one entry of [out] per call. *)
Definition print (line : string) : M unit :=
  fun s => (Ret tt, mkState (fs s) (world s) (out s ++ [line]) (calls s)).

Definition gets {A} (f : filesystem -> A) : M A := fun s => (Ret (f (fs s)), s).

Definition fs_do (op : filesystem -> exn + filesystem) : M unit :=
  fun s =>
    match op (fs s) with
    | inl e => (Raise e, s)
    | inr fs' => (Ret tt, mkState fs' (world s) (out s) (calls s))
    end.

Definition fs_read {A} (op : filesystem -> exn + A) : M A :=
  fun s => match op (fs s) with inl e => (Raise e, s) | inr a => (Ret a, s) end.

(** A call that gives a value or raises, whatever the state. *)
Definition attempt {A} (r : exn + A) : M A :=
  fun s => match r with inl e => (Raise e, s) | inr a => (Ret a, s) end.

Fixpoint for_each {A} (l : list A) (body : A -> M unit) : M unit :=
  match l with
  | [] => ret tt
  | x :: l' => body x ;; for_each l' body
  end.

(** *** pathlib and os on the file system *)

Definition locate (follow : bool) (p : Path) (f : filesystem) : located :=
  walk walk_fuel f follow (if absolute p then [] else getcwd E) (parts p).

(** The tests of pathlib, for names within the limits of the operating
    system ([within_limits]): there the look-up finds the name or does not,
    and the test answers.  [p.exists()] follows links: a dangling link
    does not exist. *)
Definition path_exists (p : Path) (f : filesystem) : bool :=
  match locate true p f with Found _ _ => true | _ => false end.

Definition path_is_dir (p : Path) (f : filesystem) : bool :=
  match locate true p f with Found _ Dir => true | _ => false end.

Definition path_is_symlink (p : Path) (f : filesystem) : bool :=
  match locate false p f with Found _ (Link _) => true | _ => false end.

(** [os.mkdir(p)] *)
Definition os_mkdir (p : Path) (f : filesystem) : exn + filesystem :=
  match locate false p f with
  | Vacant k => inr (<[k := Dir]> f)
  | Found _ _ => inl FileExistsError
  | Lost e => inl e
  end.

(** [p.mkdir()] and [p.mkdir(exist_ok=True)] *)
Definition path_mkdir (exist_ok : bool) (p : Path) (f : filesystem) : exn + filesystem :=
  match os_mkdir p f with
  | inr f' => inr f'
  | inl FileNotFoundError => inl FileNotFoundError
  | inl e => if exist_ok && path_is_dir p f then inr f else inl e
  end.

(** [p.mkdir(parents=True, exist_ok=True)]; [n] bounds the number of
    missing ancestors. *)
Fixpoint path_mkdir_parents (n : nat) (p : Path) (f : filesystem) : exn + filesystem :=
  match os_mkdir p f with
  | inr f' => inr f'
  | inl FileNotFoundError =>
      match n with
      | O => inl FileNotFoundError
      | S n' =>
          if decide (Path_parent p = p) then inl FileNotFoundError
          else match path_mkdir_parents n' (Path_parent p) f with
               | inl e => inl e
               | inr f' => path_mkdir true p f'
               end
      end
  | inl e => if path_is_dir p f then inr f else inl e
  end.

(** [p.symlink_to(target)] *)
Definition path_symlink_to (p target : Path) (f : filesystem) : exn + filesystem :=
  match locate false p f with
  | Vacant k => inr (<[k := Link target]> f)
  | Found _ _ => inl FileExistsError
  | Lost e => inl e
  end.

(** [open(p, "w")], the writes, and the close. *)
Definition write_file (p : Path) (content : string) (f : filesystem) : exn + filesystem :=
  match locate true p f with
  | Found k (File _) => inr (<[k := File content]> f)
  | Vacant k => inr (<[k := File content]> f)
  | Found _ Dir => inl IsADirectoryError
  | Found _ (Link _) => inl (OSError "ELOOP")
  | Lost e => inl e
  end.

(** [open(p)] and reading it whole. *)
Definition read_file (p : Path) (f : filesystem) : exn + string :=
  match locate true p f with
  | Found _ (File s) => inr s
  | Found _ Dir => inl IsADirectoryError
  | Found _ (Link _) => inl (OSError "ELOOP")
  | Vacant _ => inl FileNotFoundError
  | Lost e => inl e
  end.

(** [open(p)] in text mode and reading it: the bytes are decoded, and
    bytes that cannot be decoded are a [UnicodeDecodeError]. *)
Definition read_text (p : Path) (f : filesystem) : exn + string :=
  match read_file p f with
  | inr bytes =>
      match Str.decode bytes with
      | Some text => inr text
      | None => inl UnicodeDecodeError
      end
  | inl e => inl e
  end.

(** [p.unlink()] *)
Definition path_unlink (p : Path) (f : filesystem) : exn + filesystem :=
  match locate false p f with
  | Found k (File _) => inr (delete k f)
  | Found k (Link _) => inr (delete k f)
  | Found _ Dir => inl IsADirectoryError
  | Vacant _ => inl FileNotFoundError
  | Lost e => inl e
  end.

(** [p.hardlink_to(target)].  No command writes to a file after it has
    linked it, so the second name holds a copy of the node. *)
Definition path_hardlink_to (p target : Path) (f : filesystem) : exn + filesystem :=
  match locate false target f with
  | Found _ Dir => inl PermissionError
  | Found _ n =>
      match locate false p f with
      | Vacant k => inr (<[k := n]> f)
      | Found _ _ => inl FileExistsError
      | Lost e => inl e
      end
  | Vacant _ => inl FileNotFoundError
  | Lost e => inl e
  end.

(** [p.iterdir()], listed at once. *)
Definition path_iterdir (p : Path) (f : filesystem) : exn + list Path :=
  match locate true p f with
  | Found k Dir => inr (map (fun n => joinpath p (mkPath false [n])) (listdir k f))
  | Found _ _ => inl NotADirectoryError
  | Vacant _ => inl FileNotFoundError
  | Lost e => inl e
  end.

(** [p.expanduser()]: when the path is relative and its first part
    starts with [~], that part is replaced by the home directory, the
    user's own for [~] and the named user's for [~user]; for a user that
    is not known it is a [RuntimeError]. *)
Definition expanduser (p : Path) : exn + Path :=
  match absolute p, parts p with
  | false, String "~" user :: rest =>
      match (if String.eqb user "" then Some (home E) else getpwnam E user) with
      | Some h => inr (Build_Path (absolute h) (doubled h) (parts h ++ rest))
      | None => inl (RuntimeError "Could not determine home directory.")
      end
  | _, _ => inr p
  end.

(** [p.resolve()], for a path that does not lead into a loop of
    links. *)
Definition path_resolve (p : Path) (f : filesystem) : Path :=
  mkPath true (realpath walk_fuel f (if absolute p then [] else getcwd E) (parts p)).

(** The look-up of [p] goes through too many links (ELOOP). *)
Definition link_loop (p : Path) (f : filesystem) : bool :=
  match locate true p f with Lost (OSError _) => true | _ => false end.

(** [subprocess.run]: the invocation is recorded, the program runs on
    the file system and the outside world. *)
Definition run_process (args : list string) (dir : option Path) : M completed :=
  fun s =>
    match subprocess_run E args dir (fs s) (world s) with
    | (r, f', w') => (Ret r, mkState f' w' (out s) (calls s ++ [mkCall args dir]))
    end.

(** [with open(p, "rb") as f: tomllib.load(f)] *)
Definition load_toml (p : Path) : M config :=
  text ← fs_read (read_file p);
  match tomllib_load E text with
  | Some c => ret c
  | None => raise TOMLDecodeError
  end.

(** The value of [d.get(key)] when it is true in a condition. *)
Definition truthy_get (v : option string) : option string :=
  match v with
  | Some s => if Str.truthy s then Some s else None
  | None => None
  end.

(** *** SETUP command *)

(** [json.dump(STARTER_SETTINGS, f, indent=2)] followed by a line feed. *)
Definition STARTER_SETTINGS_json : string :=
  let q s := Str.dq +:+ s +:+ Str.dq in
  Str.join Str.nl
    [ "{";
      "  " +:+ q "permissions" +:+ ": {";
      "    " +:+ q "allow" +:+ ": [";
      "      " +:+ q "Read" +:+ ",";
      "      " +:+ q "Edit" +:+ ",";
      "      " +:+ q "Write" +:+ ",";
      "      " +:+ q "WebSearch";
      "    ]";
      "  }";
      "}" ] +:+ Str.nl.

(** [CLAUDE_MD_TEMPLATE.format(name=..., description=..., repos_list=...)] *)
Definition CLAUDE_MD_TEMPLATE (name description repos_list : string) : string :=
  Str.join Str.nl
    [ "# " +:+ name;
      "";
      description;
      "";
      "## Workspace Structure";
      "";
      "This is a **workspace** - a folder grouping related repos for coordinated work.";
      "";
      "- `repos/` - Git clones and symlinks (gitignored, not tracked here)";
      "- `plans/` - Design documents and implementation plans";
      "- `progress.md` - AI session logs";
      "- `journal.md` - Human work log";
      "";
      "**File locations:** All plans and progress go in THIS folder (workspace root), never inside `repos/` subdirectories.";
      "";
      "## Repositories";
      "";
      repos_list ] +:+ Str.nl.

Definition setup_claude_symlinks (workspace_path : Path) : M unit :=
  let parent_claude := Path_of ".claude" in
  let workspace_claude := workspace_path // ".claude" in
  found ← gets (path_exists parent_claude);
  if negb found then
    print "Warning: Parent .claude directory not found, skipping symlink setup"
  else
    fs_do (path_mkdir true workspace_claude) ;;
    fs_do (path_mkdir true (workspace_claude // "agents")) ;;
    fs_do (path_mkdir true (workspace_claude // "skills")) ;;
    let agents_core := workspace_claude // "agents" // "core" in
    core ← gets (path_exists agents_core);
    shared ← gets (path_exists (parent_claude // "agents"));
    (if negb core && shared then
       fs_do (path_symlink_to agents_core (Path_of "../../../.claude/agents")) ;;
       print "  ✓ Linked agents/core -> ../../../.claude/agents"
     else ret tt) ;;
    let skills_core := workspace_claude // "skills" // "core" in
    core ← gets (path_exists skills_core);
    shared ← gets (path_exists (parent_claude // "skills"));
    (if negb core && shared then
       fs_do (path_symlink_to skills_core (Path_of "../../../.claude/skills")) ;;
       print "  ✓ Linked skills/core -> ../../../.claude/skills"
     else ret tt) ;;
    let settings_file := workspace_claude // "settings.local.json" in
    present ← gets (path_exists settings_file);
    if negb present then
      fs_do (write_file settings_file STARTER_SETTINGS_json) ;;
      print "  ✓ Created settings.local.json with starter permissions"
    else ret tt.

(** The line of the repository list for one entry. *)
Definition repos_line (repo : repo_entry) : string :=
  let repo_path := default "" (repo_path repo) in
  let repo_name := if Str.truthy repo_path then Path_name (Path_of repo_path) else "unknown" in
  "- `" +:+ repo_name +:+ "` - [description]".

(** The body of [for repo in config["repos"]]. *)
Definition setup_repo (workspace_path : Path) (repo : repo_entry) : M unit :=
  match repo_path repo with
  | None => raise (KeyError "path")
  | Some p =>
      let path := Path_of p in
      let target_path := joinpath workspace_path path in
      there ← gets (path_exists target_path);
      linked ← gets (path_is_symlink target_path);
      if there || linked then
        print ("✓ " +:+ Path_str path +:+ " already exists")
      else
        match truthy_get (repo_source repo) with
        | Some source =>
            expanded ← attempt (expanduser (Path_of source));
            source_path ← gets (path_resolve expanded);
            found ← gets (path_exists source_path);
            if negb found then
              print ("✗ " +:+ Path_str path +:+ ": source " +:+ source +:+ " doesn't exist")
            else
              fs_do (path_symlink_to target_path source_path) ;;
              print ("✓ Linked " +:+ Path_str path +:+ " -> " +:+ source)
        | None =>
            match truthy_get (repo_remote repo) with
            | Some remote =>
                r ← run_process ["git"; "clone"; remote; Path_str target_path] None;
                match r with
                | Completed 0 _ _ =>
                    print ("✓ Cloned " +:+ remote +:+ " -> " +:+ Path_str path)
                | Completed _ _ stderr =>
                    (* [e.stderr.decode()] *)
                    if Str.utf8 stderr
                    then print ("✗ Failed to clone " +:+ remote +:+ ": " +:+ stderr)
                    else raise UnicodeDecodeError
                | NotStarted msg => raise (OSError msg)
                end
            | None =>
                print ("⊘ " +:+ Path_str path +:+ " has no remote or source, skipping")
            end
        end
  end.

Definition cmd_setup (workspace : string) : M unit :=
  let workspace_path := Path_of workspace in
  found ← gets (path_exists workspace_path);
  if negb found then
    print ("Error: Workspace '" +:+ workspace +:+ "' not found") ;;
    sys_exit 1
  else
  let workspace_toml := workspace_path // "workspace.toml" in
  found ← gets (path_exists workspace_toml);
  if negb found then
    print ("Error: workspace.toml not found in " +:+ workspace) ;;
    sys_exit 1
  else
  config ← load_toml workspace_toml;
  match cfg_repos config with
  | None =>
      print "Error: No 'repos' section found in workspace.toml" ;;
      sys_exit 1
  | Some repos =>
      let repos_dir := workspace_path // "repos" in
      fs_do (path_mkdir true repos_dir) ;;
      let plans_dir := workspace_path // "plans" in
      present ← gets (path_exists plans_dir);
      (if negb present then
         fs_do (path_mkdir false plans_dir) ;;
         print "✓ Created plans/"
       else ret tt) ;;
      let claude_md := workspace_path // "CLAUDE.md" in
      present ← gets (path_exists claude_md);
      (if negb present then
         let name := default workspace (cfg_name config) in
         let description := default "[Description of this workspace]" (cfg_description config) in
         let repos_lines := map repos_line repos in
         let repos_list :=
           match repos_lines with
           | [] => "- (no repositories yet)"
           | _ => Str.join Str.nl repos_lines
           end in
         let content := CLAUDE_MD_TEMPLATE name description repos_list in
         fs_do (write_file claude_md content) ;;
         print "✓ Created CLAUDE.md from template"
       else ret tt) ;;
      print (Str.nl +:+ "Setting up .claude symlinks...") ;;
      setup_claude_symlinks workspace_path ;;
      print (Str.nl +:+ "Setting up repositories...") ;;
      for_each repos (setup_repo workspace_path) ;;
      print (Str.nl +:+ "Workspace '" +:+ workspace +:+ "' is ready!")
  end.

(** *** CHECK command *)

(** [run_git]: the stripped standard output of a git that ran, whatever
    its return code; [(False, str(e))] when it could not be started. *)
Definition run_git (repo_path : Path) (args : list string) : M (bool * string) :=
  r ← run_process ("git" :: args) (Some repo_path);
  match r with
  | Completed _ stdout _ => ret (true, Str.strip stdout)
  | NotStarted msg => ret (false, msg)
  end.

Definition check_repo (repo_path : Path) (fetch : bool) : M status :=
  let result := mkStatus false "" "" "" in
  git_dir ← gets (path_exists (repo_path // ".git"));
  if negb git_dir then ret result
  else
    let result := set_is_git_repo true result in
    r ← run_git repo_path ["status"; "--porcelain"];
    let result := if r.1 then set_uncommitted r.2 result else result in
    (if fetch then run_git repo_path ["fetch"; "--quiet"] ;; ret tt else ret tt) ;;
    r ← run_git repo_path ["log"; "@{u}.."; "--oneline"];
    let result := if r.1 then set_outgoing r.2 result else result in
    r ← run_git repo_path ["log"; "..@{u}"; "--oneline"];
    let result := if r.1 then set_incoming r.2 result else result in
    ret result.

(** The body of [for repo in sorted(repos_path.iterdir())], on the
    counters [(clean, dirty)]. *)
Definition check_workspace_repo (fetch : bool) (repo : Path) (counts : nat * nat)
  : M (nat * nat) :=
  is_dir ← gets (path_is_dir repo);
  if negb is_dir then ret counts
  else
    status ← check_repo repo fetch;
    if negb (is_git_repo status) then ret counts
    else
      let has_issues :=
        Str.truthy (uncommitted status) || Str.truthy (outgoing status)
        || Str.truthy (incoming status) in
      counts ← (if has_issues then
                  print (Colors.CYAN +:+ Path_str repo +:+ Colors.RESET) ;;
                  ret (counts.1, S counts.2)
                else ret (S counts.1, counts.2));
      (if Str.truthy (uncommitted status) then
         print "   Uncommitted changes:" ;;
         for_each (Str.split Str.nl (uncommitted status))
           (fun line => print (Colors.YELLOW +:+ "      " +:+ line +:+ Colors.RESET))
       else ret tt) ;;
      (if Str.truthy (outgoing status) then
         print "   Outgoing commits (not pushed):" ;;
         for_each (Str.split Str.nl (outgoing status))
           (fun line => print (Colors.GREEN +:+ "      " +:+ line +:+ Colors.RESET))
       else ret tt) ;;
      (if Str.truthy (incoming status) then
         print "   Incoming commits (not pulled):" ;;
         for_each (Str.split Str.nl (incoming status))
           (fun line => print (Colors.RED +:+ "      " +:+ line +:+ Colors.RESET))
       else ret tt) ;;
      ret counts.

Fixpoint check_workspace_loop (fetch : bool) (repos : list Path) (counts : nat * nat)
  : M (nat * nat) :=
  match repos with
  | [] => ret counts
  | repo :: rest =>
      counts ← check_workspace_repo fetch repo counts;
      check_workspace_loop fetch rest counts
  end.

Definition check_workspace (workspace_path : Path) (fetch : bool) : M (nat * nat) :=
  let repos_path := workspace_path // "repos" in
  found ← gets (path_exists repos_path);
  if negb found then ret (0, 0)%nat
  else
    let ws_name := Path_name workspace_path in
    print (Colors.BLUE +:+ "=== Workspace: " +:+ ws_name +:+ " ===" +:+ Colors.RESET) ;;
    items ← fs_read (path_iterdir repos_path);
    counts ← check_workspace_loop fetch (sorted items) (0, 0)%nat;
    print "" ;;
    ret counts.

Definition is_workspace_item (f : filesystem) (item : Path) : bool :=
  path_is_dir item f && negb (Str.startswith "." (Path_name item))
  && path_is_dir (item // "repos") f.

Definition find_workspaces (base_path : Path) : M (list Path) :=
  items ← fs_read (path_iterdir base_path);
  workspaces ← gets (fun f => List.filter (is_workspace_item f) items);
  ret (sorted workspaces).

(** The loop over the workspaces found, adding up the counters. *)
Fixpoint check_all (fetch : bool) (workspaces : list Path) (totals : nat * nat)
  : M (nat * nat) :=
  match workspaces with
  | [] => ret totals
  | ws_path :: rest =>
      counts ← check_workspace ws_path fetch;
      check_all fetch rest (totals.1 + counts.1, totals.2 + counts.2)%nat
  end.

Definition cmd_check (workspace : option string) (fetch : bool) : M unit :=
  cwd ← gets (path_resolve (mkPath true (getcwd E)));
  in_workspace ← gets (path_is_dir (cwd // "repos"));
  print (Colors.BLUE +:+ "Checking workspaces for git changes..." +:+ Colors.RESET) ;;
  (if fetch then print (Colors.YELLOW +:+ "(fetching from remotes)" +:+ Colors.RESET)
   else ret tt) ;;
  print "" ;;
  totals ←
    match truthy_get workspace with
    | Some name =>
        let ws_path := cwd // name in
        found ← gets (path_exists ws_path);
        if negb found then
          print (Colors.RED +:+ "Workspace not found: " +:+ name +:+ Colors.RESET) ;;
          sys_exit 1
        else
          has_repos ← gets (path_is_dir (ws_path // "repos"));
          if negb has_repos then
            print (Colors.RED +:+ "Not a workspace (no repos/ folder): " +:+ name
                   +:+ Colors.RESET) ;;
            sys_exit 1
          else check_workspace ws_path fetch
    | None =>
        if in_workspace then check_workspace cwd fetch
        else
          workspaces ← find_workspaces cwd;
          match workspaces with
          | [] => print "No workspaces found" ;; sys_exit 0
          | _ => check_all fetch workspaces (0, 0)%nat
          end
    end;
  print (Colors.GREEN +:+ "Clean repos:" +:+ Colors.RESET +:+ " " +:+ Str.of_nat totals.1
         +:+ " | " +:+ Colors.RED +:+ "Repos with changes:" +:+ Colors.RESET +:+ " "
         +:+ Str.of_nat totals.2).

(** *** LINK command *)

(** The workspace named by a note: the text after [workspace: ] on the
    first line that starts with it, stripped; [None] when no line does. *)
Fixpoint note_workspace (lines : list string) : option string :=
  match lines with
  | [] => None
  | line :: rest =>
      if Str.startswith "workspace: " line
      then Some (Str.strip (nth 1 (Str.split "workspace: " line) ""))
      else note_workspace rest
  end.

(** First half of the body of [for note in notes]: link to the workspace
    folder. *)
Definition link_to_workspace (workspace : string) (workspace_dir link_path note : Path)
  : M unit :=
  is_dir ← gets (path_is_dir workspace_dir);
  is_symlink ← gets (path_is_symlink link_path);
  occupied ← gets (path_exists link_path);
  if negb is_dir then
    print ("- " +:+ workspace +:+ " (no workspace folder)")
  else if is_symlink then
    print ("✓ " +:+ workspace +:+ " (already linked)")
  else if occupied then
    print ("✗ " +:+ workspace +:+ " (journal.md exists but is not a symlink)")
  else
    target ← gets (path_resolve note);
    fs_do (path_symlink_to link_path target) ;;
    print ("✓ " +:+ workspace +:+ " → " +:+ Path_str note).

(** Second half: hard link to the aibrief folder. *)
Definition link_to_aibrief (workspace : string) (aibrief_dir aibrief_link note : Path)
  : M unit :=
  brief ← gets (path_is_dir aibrief_dir);
  if brief then
    old ← gets (path_exists aibrief_link);
    (if old then fs_do (path_unlink aibrief_link) else ret tt) ;;
    try_except
      (target ← gets (path_resolve note);
       fs_do (path_hardlink_to aibrief_link target) ;;
       print ("  + aibrief: " +:+ workspace +:+ ".md (hard linked)"))
      (fun e => if is_OSError e then Some (ret tt) else None)
  else ret tt.

(** The body of [for note in notes]. *)
Definition link_note (workspaces_dir aibrief_dir : Path) (note : Path) : M unit :=
  text ← fs_read (read_text note);
  match truthy_get (note_workspace (Str.lines text)) with
  | None => ret tt
  | Some workspace =>
      let workspace_dir := workspaces_dir // workspace in
      let link_path := workspace_dir // "journal.md" in
      let aibrief_link := aibrief_dir // (workspace +:+ ".md") in
      link_to_workspace workspace workspace_dir link_path note ;;
      link_to_aibrief workspace aibrief_dir aibrief_link note
  end.

Definition cmd_link : M unit :=
  vault ← attempt (expanduser (Path_of "../Notes/notes"));
  workspaces_dir ← gets (path_resolve (Path_parent (script_file E)));
  let aibrief_dir := home E // "Dropbox/Apps/work-journal-reviewer" in
  found ← gets (path_exists vault);
  if negb found then
    print (Colors.RED +:+ "Vault not found: " +:+ Path_str vault +:+ Colors.RESET) ;;
    sys_exit 1
  else
    apps ← gets (path_exists (home E // "Dropbox/Apps"));
    (if apps then fs_do (path_mkdir_parents (length (parts aibrief_dir)) aibrief_dir)
     else ret tt) ;;
    r ← run_process ["grep"; "-rl"; "^workspace: "; Path_str vault] None;
    match r with
    | NotStarted msg =>
        print (Colors.RED +:+ "Error searching vault: " +:+ msg +:+ Colors.RESET) ;;
        sys_exit 1
    | Completed _ stdout _ =>
        let notes :=
          map Path_of
              (List.filter Str.truthy (Str.split Str.nl (Str.strip stdout))) in
        for_each notes (link_note workspaces_dir aibrief_dir)
    end.

(** *** EXPORT command *)

(** The loop [for item in src_dir.iterdir()] of [cmd_export]: what is
    not a symbolic link is copied and counted. *)
Fixpoint export_items (dest_dir : Path) (items : list Path) (copied : nat) : M nat :=
  match items with
  | [] => ret copied
  | item :: rest =>
      is_symlink ← gets (path_is_symlink item);
      if negb is_symlink then
        let dest_item := dest_dir // Path_name item in
        is_dir ← gets (path_is_dir item);
        (if is_dir then
           old ← gets (path_exists dest_item);
           (if old then fs_do (shutil_rmtree E dest_item) else ret tt) ;;
           fs_do (shutil_copytree E item dest_item)
         else fs_do (shutil_copy2 E item dest_item)) ;;
        export_items dest_dir rest (S copied)
      else export_items dest_dir rest copied
  end.

(** The copies of [cmd_export], up to the note about source entries.
    Returns [export_path] and [workspace_toml]. *)
Definition export_files (workspace destination : string) : M (Path * Path) :=
  let workspace_path := Path_of workspace in
  expanded ← attempt (expanduser (Path_of destination));
  export_path ← gets (path_resolve expanded);
  found ← gets (path_exists workspace_path);
  if negb found then
    print (Colors.RED +:+ "Error: Workspace '" +:+ workspace +:+ "' not found"
           +:+ Colors.RESET) ;;
    sys_exit 1
  else
  let workspace_toml := workspace_path // "workspace.toml" in
  found ← gets (path_exists workspace_toml);
  if negb found then
    print (Colors.RED +:+ "Error: workspace.toml not found in " +:+ workspace
           +:+ Colors.RESET) ;;
    sys_exit 1
  else
  (* Create export directory *)
  fs_do (path_mkdir_parents (length (parts export_path)) export_path) ;;
  print ("Exporting to: " +:+ Path_str export_path) ;;
  (* Copy workspace.py *)
  script_path ← gets (path_resolve (script_file E));
  let dest_script := export_path // "workspace.py" in
  fs_do (shutil_copy2 E script_path dest_script) ;;
  fs_do (os_chmod E dest_script) ;;
  print "✓ Copied workspace.py" ;;
  (* Copy root CLAUDE.md and README.md *)
  let root_dir := Path_parent (script_file E) in
  for_each ["CLAUDE.md"; "README.md"]
    (fun filename =>
       let src := root_dir // filename in
       present ← gets (path_exists src);
       if present then
         fs_do (shutil_copy2 E src (export_path // filename)) ;;
         print ("✓ Copied " +:+ filename)
       else print ("⊘ No root " +:+ filename +:+ " found")) ;;
  (* Copy root .claude/agents and .claude/skills directories *)
  let src_claude_dir := root_dir // ".claude" in
  let dest_claude_dir := export_path // ".claude" in
  fs_do (path_mkdir true dest_claude_dir) ;;
  for_each ["agents"; "skills"]
    (fun subdir =>
       let src_dir := src_claude_dir // subdir in
       let dest_dir := dest_claude_dir // subdir in
       present ← gets (fun f => path_exists src_dir f && path_is_dir src_dir f);
       if present then
         old ← gets (path_exists dest_dir);
         (if old then fs_do (shutil_rmtree E dest_dir) else ret tt) ;;
         fs_do (shutil_copytree E src_dir dest_dir) ;;
         items ← fs_read (path_iterdir dest_dir);
         print ("✓ Copied .claude/" +:+ subdir +:+ "/ (" +:+ Str.of_nat (length items)
                +:+ " items)")
       else
         fs_do (path_mkdir true dest_dir) ;;
         print ("✓ Created .claude/" +:+ subdir +:+ "/ (empty)")) ;;
  (* Create workspace subdirectory *)
  let ws_export := export_path // workspace in
  fs_do (path_mkdir true ws_export) ;;
  (* Copy workspace.toml *)
  fs_do (shutil_copy2 E workspace_toml (ws_export // "workspace.toml")) ;;
  print ("✓ Copied " +:+ workspace +:+ "/workspace.toml") ;;
  (* Copy workspace CLAUDE.md if exists *)
  let ws_claude := workspace_path // "CLAUDE.md" in
  present ← gets (path_exists ws_claude);
  (if present then
     fs_do (shutil_copy2 E ws_claude (ws_export // "CLAUDE.md")) ;;
     print ("✓ Copied " +:+ workspace +:+ "/CLAUDE.md")
   else ret tt) ;;
  (* Copy plans/ directory if exists *)
  let ws_plans := workspace_path // "plans" in
  present ← gets (fun f => path_exists ws_plans f && path_is_dir ws_plans f);
  (if present then
     let dest_plans := ws_export // "plans" in
     old ← gets (path_exists dest_plans);
     (if old then fs_do (shutil_rmtree E dest_plans) else ret tt) ;;
     fs_do (shutil_copytree E ws_plans dest_plans) ;;
     print ("✓ Copied " +:+ workspace +:+ "/plans/")
   else ret tt) ;;
  (* Copy workspace .claude/agents and .claude/skills (skip symlinks) *)
  let ws_claude := workspace_path // ".claude" in
  present ← gets (path_exists ws_claude);
  (if present then
     let dest_claude := ws_export // ".claude" in
     fs_do (path_mkdir true dest_claude) ;;
     for_each ["agents"; "skills"]
       (fun subdir =>
          let src_dir := ws_claude // subdir in
          present ← gets (fun f => path_exists src_dir f && path_is_dir src_dir f);
          if present then
            let dest_dir := dest_claude // subdir in
            fs_do (path_mkdir true dest_dir) ;;
            items ← fs_read (path_iterdir src_dir);
            copied ← export_items dest_dir items 0;
            match copied with
            | O => ret tt
            | _ => print ("✓ Copied " +:+ Str.of_nat copied +:+ " items from "
                          +:+ workspace +:+ "/.claude/" +:+ subdir +:+ "/")
            end
          else ret tt)
   else ret tt) ;;
  ret (export_path, workspace_toml).

(** One line of the note: [entry['path']] is a [KeyError] when the entry
    has no path; a missing source prints as [None]. *)
Definition source_entry_line (entry : repo_entry) : M unit :=
  match repo_path entry with
  | None => raise (KeyError "path")
  | Some p => print ("  - " +:+ p +:+ ": " +:+ default "None" (repo_source entry))
  end.

(** [r.get("source")] in a condition. *)
Definition has_source (r : repo_entry) : bool :=
  match truthy_get (repo_source r) with Some _ => true | None => false end.

(** The end of [cmd_export]: the note about source entries and the
    closing lines. *)
Definition export_note (workspace : string) (export_path workspace_toml : Path) : M unit :=
  config ← load_toml workspace_toml;
  let source_entries := List.filter has_source (default [] (cfg_repos config)) in
  (match source_entries with
   | [] => ret tt
   | _ =>
       print (Str.nl +:+ Colors.YELLOW +:+ "Note: This workspace has "
              +:+ Str.of_nat (length source_entries) +:+ " local source entries."
              +:+ Colors.RESET) ;;
       print "Recipients will need to update these paths in workspace.toml:" ;;
       for_each source_entries source_entry_line
   end) ;;
  print (Str.nl +:+ Colors.GREEN +:+ "Export complete!" +:+ Colors.RESET) ;;
  print ("To set up: cd " +:+ Path_str export_path +:+ " && ./workspace.py setup "
         +:+ workspace).

Definition cmd_export (workspace destination : string) : M unit :=
  paths ← export_files workspace destination;
  export_note workspace paths.1 paths.2.

(** *** States used in the statements *)

(** The state [s] after the lines [l] have been printed. *)
Definition printed (l : list string) (s : state E) : state E :=
  mkState (fs s) (world s) (out s ++ l) (calls s).

(** The state [s] with the file system [f]. *)
Definition with_fs (f : filesystem) (s : state E) : state E :=
  mkState f (world s) (out s) (calls s).

(** What one git query in the repository gives, and the state after it. *)
Definition git_query (repo_path : Path) (args : list string) (s : state E)
  : completed * state E :=
  match subprocess_run E ("git" :: args) (Some repo_path) (fs s) (world s) with
  | (r, f', w') =>
      (r, mkState f' w' (out s) (calls s ++ [mkCall ("git" :: args) (Some repo_path)]))
  end.

(** The git invocations of [check_repo], in order. *)
Definition git_calls (repo_path : Path) (fetch : bool) : list call :=
  [mkCall ["git"; "status"; "--porcelain"] (Some repo_path)]
  ++ (if fetch then [mkCall ["git"; "fetch"; "--quiet"] (Some repo_path)] else [])
  ++ [mkCall ["git"; "log"; "@{u}.."; "--oneline"] (Some repo_path);
      mkCall ["git"; "log"; "..@{u}"; "--oneline"] (Some repo_path)].

(** What [cmd_check] prints before it looks at any workspace. *)
Definition check_header (fetch : bool) : list string :=
  [Colors.BLUE +:+ "Checking workspaces for git changes..." +:+ Colors.RESET]
  ++ (if fetch then [Colors.YELLOW +:+ "(fetching from remotes)" +:+ Colors.RESET] else [])
  ++ [""].

(** The field a git query leaves in the snapshot of [check_repo]: the
    stripped standard output of a git that ran, whatever its return
    code, and the initial empty string of one that could not be
    started. *)
Definition git_field (r : completed) : string :=
  match r with
  | Completed _ stdout _ => Str.strip stdout
  | NotStarted _ => ""
  end.

(** Whether a snapshot counts as dirty, and what is printed for it. *)
Definition has_issues (st : status) : bool :=
  Str.truthy (uncommitted st) || Str.truthy (outgoing st) || Str.truthy (incoming st).

Definition section_lines (text title color : string) : list string :=
  if Str.truthy text
  then title :: map (fun line => color +:+ "      " +:+ line +:+ Colors.RESET)
                    (Str.split Str.nl text)
  else [].

Definition repo_report (repo : Path) (st : status) : list string :=
  (if has_issues st then [Colors.CYAN +:+ Path_str repo +:+ Colors.RESET] else [])
  ++ section_lines (uncommitted st) "   Uncommitted changes:" Colors.YELLOW
  ++ section_lines (outgoing st) "   Outgoing commits (not pushed):" Colors.GREEN
  ++ section_lines (incoming st) "   Incoming commits (not pulled):" Colors.RED.

(** The line of the export note for one source entry. *)
Definition source_line (entry : repo_entry) : string :=
  "  - " +:+ default "" (repo_path entry) +:+ ": " +:+ default "None" (repo_source entry).

(** What the hard-link step may print for a workspace: nothing, or its
    one line. *)
Definition brief_lines (workspace : string) (l : list string) : Prop :=
  l = [] \/ l = ["  + aibrief: " +:+ workspace +:+ ".md (hard linked)"].

(** A command only adds to the file system when, however it ends, every
    name that was there is still there with the same node. *)
Definition adds {A : Type} (m : M A) : Prop :=
  forall s r s', m s = (r, s') -> fs s ⊆ fs s'.

(** The same for an operation on the file system. *)
Definition op_adds (op : filesystem -> exn + filesystem) : Prop :=
  forall f f', op f = inr f' -> f ⊆ f'.

(** What is asked of git for Setup to add only: a clone removes and
    overwrites nothing. *)
Definition clone_adds : Prop :=
  forall remote target dir f w,
    f ⊆ (subprocess_run E ["git"; "clone"; remote; target] dir f w).1.2.

(** The [.claude] scaffolding of a workspace is in place: its three
    directories, the settings file, and each core link unless there is
    nothing to link to. *)
Definition claude_in_place (workspace_path : Path) (f : filesystem) : Prop :=
  let parent_claude := Path_of ".claude" in
  let workspace_claude := workspace_path // ".claude" in
  path_is_dir workspace_claude f = true
  /\ path_is_dir (workspace_claude // "agents") f = true
  /\ path_is_dir (workspace_claude // "skills") f = true
  /\ (path_exists (workspace_claude // "agents" // "core") f = true
      \/ path_exists (parent_claude // "agents") f = false)
  /\ (path_exists (workspace_claude // "skills" // "core") f = true
      \/ path_exists (parent_claude // "skills") f = false)
  /\ path_exists (workspace_claude // "settings.local.json") f = true.

(** The notice for an entry whose target is there. *)
Definition already_line (repo : repo_entry) : string :=
  "✓ " +:+ Path_str (Path_of (default "" (repo_path repo))) +:+ " already exists".

(** Whether a list of paths is in the order of [sorted]. *)
Fixpoint is_sorted (l : list Path) : bool :=
  match l with
  | p :: (q :: _) as rest => Path_leb p q && is_sorted rest
  | _ => true
  end.

(** A line of the report, in its color. *)
Definition colored (color line : string) : string :=
  color +:+ "      " +:+ line +:+ Colors.RESET.

(** A command runs only programs of the kind [P] when, however it ends,
    the invocations it adds to the record all satisfy [P]. *)
Definition runs_only (P : call -> Prop) {A : Type} (m : M A) : Prop :=
  forall s r s', m s = (r, s') -> exists ran, calls s' = calls s ++ ran /\ Forall P ran.

(** No invocation at all. *)
Definition no_call (c : call) : Prop := False.

(** A [git clone] of some remote to some target, in the current
    directory. *)
Definition is_clone (c : call) : Prop :=
  exists remote target, c = mkCall ["git"; "clone"; remote; target] None.

(** The search of [cmd_link] for the notes that name a workspace. *)
Definition vault_search : call :=
  mkCall ["grep"; "-rl"; "^workspace: "; Path_str (Path_of "../Notes/notes")] None.

(* ===================================================================== *)
(** ** Properties *)
(* ===================================================================== *)

(** The bound on the length of walks is not unfolded in the proofs. *)
#[local] Opaque walk_fuel.

(** *** Walks *)

Lemma walk_nil (fuel : nat) (f : filesystem) (follow : bool) (cur : location) :
  walk fuel f follow cur [] = Found cur Dir.
Proof. by destruct fuel. Qed.

Lemma walk_vacant_lookup (fuel : nat) (f : filesystem) (follow : bool)
    (cur todo k : location) :
  walk fuel f follow cur todo = Vacant k -> f !! k = None.
Proof.
  revert cur todo. induction fuel as [|fuel IH]; intros cur todo;
    destruct todo as [|c rest]; cbn [walk]; try done.
  destruct (String.eqb c ".."); [apply IH|].
  destruct (f !! (cur ++ [c])) as [[content| |t]|] eqn:Hk.
  - destruct rest; done.
  - apply IH.
  - destruct rest, follow; try done; apply IH.
  - destruct rest; [|done]. by intros [= <-].
Qed.


Lemma walk_vacant_insert (fuel : nat) (f : filesystem) (follow : bool)
    (cur todo k : location) (n : node) :
  (follow = false \/ forall t, n <> Link t) ->
  walk fuel f follow cur todo = Vacant k ->
  walk fuel (<[k := n]> f) follow cur todo = Found k n.
Proof.
  intros Hn. revert cur todo. induction fuel as [|fuel IH]; intros cur todo Hw;
    pose proof (walk_vacant_lookup _ _ _ _ _ _ Hw) as Hnone; revert Hw;
    destruct todo as [|c rest]; cbn [walk]; try done.
  destruct (String.eqb c ".."); [apply IH|].
  destruct (f !! (cur ++ [c])) as [nd|] eqn:Hk.
  - assert (k <> cur ++ [c]) by congruence.
    rewrite lookup_insert_ne by done. rewrite Hk.
    destruct nd as [content| |t].
    + destruct rest; done.
    + apply IH.
    + destruct rest, follow; try done; apply IH.
  - destruct rest; [|done]. intros [= <-]. rewrite lookup_insert_eq.
    destruct n as [content| |t]; [done|apply walk_nil|].
    destruct follow; [|done]. destruct Hn as [|Hn]; [done|]. by destruct (Hn t).
Qed.


Lemma walk_found_lookup (fuel : nat) (f : filesystem) (follow : bool)
    (cur todo k : location) (n : node) :
  walk fuel f follow cur todo = Found k n -> n = Dir \/ f !! k = Some n.
Proof.
  revert cur todo. induction fuel as [|fuel IH]; intros cur todo;
    destruct todo as [|c rest]; cbn [walk]; try done.
  - intros [= <- <-]. by left.
  - intros [= <- <-]. by left.
  - destruct (String.eqb c ".."); [apply IH|].
    destruct (f !! (cur ++ [c])) as [[content| |t]|] eqn:Hk.
    + destruct rest; [|done]. intros [= <- <-]. by right.
    + apply IH.
    + destruct rest, follow; try apply IH. intros [= <- <-]. by right.
    + destruct rest; done.
Qed.

(** What a walk that follows the last part finds is not a link. *)
Lemma walk_follow_not_link (fuel : nat) (f : filesystem)
    (cur todo k : location) (t : Path) :
  walk fuel f true cur todo <> Found k (Link t).
Proof.
  revert cur todo. induction fuel as [|fuel IH]; intros cur todo;
    destruct todo as [|c rest]; cbn [walk]; try done.
  destruct (String.eqb c ".."); [apply IH|].
  destruct (f !! (cur ++ [c])) as [[content| |t']|] eqn:Hk.
  - destruct rest; done.
  - apply IH.
  - destruct rest; apply IH.
  - destruct rest; done.
Qed.

(** Following the last part changes nothing when it is not a link. *)
Lemma walk_nofollow_follow (fuel : nat) (f : filesystem)
    (cur todo : location) (r : located) :
  walk fuel f false cur todo = r ->
  (forall k t, r <> Found k (Link t)) ->
  walk fuel f true cur todo = r.
Proof.
  intros <-. revert cur todo. induction fuel as [|fuel IH]; intros cur todo;
    destruct todo as [|c rest]; cbn [walk]; try done.
  destruct (String.eqb c ".."); [apply IH|].
  destruct (f !! (cur ++ [c])) as [[content| |t]|] eqn:Hk.
  - done.
  - apply IH.
  - destruct rest; [|apply IH]. intros H. by destruct (H (cur ++ [c]) t).
  - done.
Qed.

(** A walk that finds something else than the node at [kb] does not
    depend on what is at [kb], when no walk can go through [kb]. *)
Lemma walk_found_elsewhere (fuel : nat) (f f' : filesystem) (follow : bool)
    (cur todo kb k : location) (n : node) :
  (f !! kb = None \/ exists c, f !! kb = Some (File c)) ->
  (forall k1, k1 <> kb -> f' !! k1 = f !! k1) ->
  walk fuel f follow cur todo = Found k n ->
  (k <> kb \/ n = Dir) ->
  walk fuel f' follow cur todo = Found k n.
Proof.
  intros Hkb Hsame. revert cur todo. induction fuel as [|fuel IH]; intros cur todo;
    destruct todo as [|c rest]; cbn [walk]; try done.
  destruct (String.eqb c ".."); [apply IH|].
  destruct (decide (cur ++ [c] = kb)) as [->|Hne].
  - destruct Hkb as [->|[content ->]].
    + destruct rest; done.
    + destruct rest; [|done]. intros [= <- <-] [?|?]; done.
  - rewrite (Hsame _ Hne).
    destruct (f !! (cur ++ [c])) as [[content| |t]|] eqn:Hk.
    + done.
    + apply IH.
    + destruct rest, follow; try done; apply IH.
    + done.
Qed.

(** Removing the file that a walk finds leaves its name vacant. *)
Lemma walk_found_delete (fuel : nat) (f : filesystem) (follow : bool)
    (cur todo k : location) (content : string) :
  walk fuel f follow cur todo = Found k (File content) ->
  walk fuel (delete k f) follow cur todo = Vacant k.
Proof.
  revert cur todo. induction fuel as [|fuel IH]; intros cur todo Hw;
    pose proof (walk_found_lookup _ _ _ _ _ _ _ Hw) as [?|Hfile]; try done; revert Hw;
    destruct todo as [|c rest]; cbn [walk]; try done.
  destruct (String.eqb c ".."); [apply IH|].
  destruct (decide (cur ++ [c] = k)) as [->|Hne].
  - rewrite Hfile, lookup_delete_eq. destruct rest; done.
  - rewrite lookup_delete_ne by done.
    destruct (f !! (cur ++ [c])) as [[content'| |t]|] eqn:Hk.
    + destruct rest; [|done]. by intros [= <- <-].
    + apply IH.
    + destruct rest, follow; try done; apply IH.
    + destruct rest; done.
Qed.

(** *** Stepping through a command *)

Lemma bind_ret {A B : Type} (a : A) (k : A -> M B) s : bind (ret a) k s = k a s.
Proof. reflexivity. Qed.

Lemma bind_gets {A B : Type} (f : filesystem -> A) (k : A -> M B) s :
  bind (gets f) k s = k (f (fs s)) s.
Proof. reflexivity. Qed.

Lemma bind_print {B : Type} line (k : unit -> M B) s :
  bind (print line) k s = k tt (printed [line] s).
Proof. reflexivity. Qed.

Lemma bind_bind {A B C : Type} (m : M A) (f : A -> M B) (g : B -> M C) s :
  bind (bind m f) g s = bind m (fun x => bind (f x) g) s.
Proof. unfold bind. destruct (m s) as [[a|c|e] s']; reflexivity. Qed.

Lemma bind_exit {A B : Type} c (k : A -> M B) s : bind (sys_exit c) k s = (Exit c, s).
Proof. reflexivity. Qed.

Lemma bind_raise {A B : Type} e (k : A -> M B) s : bind (raise e) k s = (Raise e, s).
Proof. reflexivity. Qed.

Lemma bind_eq {A B : Type} (m : M A) (k : A -> M B) s a s' :
  m s = (Ret a, s') -> bind m k s = k a s'.
Proof. unfold bind. intros ->. reflexivity. Qed.

Lemma bind_fs_read {A B : Type} (op : filesystem -> exn + A) (k : A -> M B) s a :
  op (fs s) = inr a -> bind (fs_read op) k s = k a s.
Proof. unfold bind, fs_read. intros ->. reflexivity. Qed.

Lemma bind_attempt {A B : Type} (r : exn + A) (k : A -> M B) s a :
  r = inr a -> bind (attempt r) k s = k a s.
Proof. intros ->. reflexivity. Qed.


Lemma bind_fs_do {B : Type} (op : filesystem -> exn + filesystem) (k : unit -> M B) s f' :
  op (fs s) = inr f' -> bind (fs_do op) k s = k tt (with_fs f' s).
Proof. unfold bind, fs_do. intros ->. reflexivity. Qed.

(** One step of a command at the head of the goal. *)
Ltac run_step :=
  first [ rewrite bind_bind | rewrite bind_print | rewrite bind_ret
        | rewrite bind_gets ];
  cbv beta.

Ltac run := repeat run_step.

Lemma printed_printed a b s : printed b (printed a s) = printed (a ++ b) s.
Proof. unfold printed. simpl. by rewrite <- app_assoc. Qed.

Lemma printed_nil s : printed [] s = s.
Proof. destruct s. unfold printed. simpl. by rewrite app_nil_r. Qed.

Lemma print_eq line s : print line s = (Ret tt, printed [line] s).
Proof. reflexivity. Qed.

Lemma for_each_print {A : Type} (l : list A) (f : A -> string) s :
  for_each l (fun x => print (f x)) s = (Ret tt, printed (map f l) s).
Proof.
  revert s. induction l as [|x l IH]; intros s; simpl.
  - by rewrite printed_nil.
  - rewrite bind_print, IH, printed_printed. reflexivity.
Qed.

(** A file that can be read exists. *)
Lemma read_file_exists p f text : read_file p f = inr text -> path_exists p f = true.
Proof.
  unfold read_file, path_exists.
  destruct (locate true p f) as [k [c| |t]|k|e]; simplify_eq; done.
Qed.

Lemma load_toml_eq p s text config :
  read_file p (fs s) = inr text -> tomllib_load E text = Some config ->
  load_toml p s = (Ret config, s).
Proof.
  intros Hr Hl. unfold load_toml. rewrite (bind_fs_read _ _ _ _ Hr), Hl. reflexivity.
Qed.

(** *** Setup: a manifest without a repos section *)

(** C10.  When the workspace directory exists and its manifest can be
    read and parsed but has no top-level [repos] key, Setup prints the
    error, exits with code 1, and has not touched the file system (nor
    run any subprocess). *)
Theorem setup_without_repos_exits (workspace text : string) (config : config)
    (s : state E) :
  path_exists (Path_of workspace) (fs s) = true ->
  read_file (Path_of workspace // "workspace.toml") (fs s) = inr text ->
  tomllib_load E text = Some config ->
  cfg_repos config = None ->
  cmd_setup workspace s
  = (Exit 1, printed ["Error: No 'repos' section found in workspace.toml"] s).
Proof.
  intros Hws Hread Hload Hrepos. unfold cmd_setup.
  rewrite bind_gets, Hws. cbn [negb].
  rewrite bind_gets, (read_file_exists _ _ _ Hread). cbn [negb].
  rewrite (bind_eq _ _ _ _ _ (load_toml_eq _ _ _ _ Hread Hload)), Hrepos.
  reflexivity.
Qed.

(** *** Setup: an entry with neither remote nor source *)


(** *** Status Checker *)

Lemma run_git_eq repo_path args s :
  run_git repo_path args s
  = (Ret (match (git_query repo_path args s).1 with
          | Completed _ stdout _ => (true, Str.strip stdout)
          | NotStarted msg => (false, msg)
          end),
     (git_query repo_path args s).2).
Proof.
  unfold run_git, run_process, git_query, bind.
  destruct (subprocess_run E ("git" :: args) (Some repo_path) (fs s) (world s))
    as [[[rc o e|msg] f'] w']; reflexivity.
Qed.

(** The field a query leaves in the snapshot: the stripped output of a
    git that ran, the initial empty string otherwise. *)
Lemma check_repo_eq (repo_path : Path) (fetch : bool) (s : state E) :
  path_exists (repo_path // ".git") (fs s) = true ->
  let field (r : completed) := match r with Completed _ stdout _ => Str.strip stdout
                            | NotStarted _ => "" end in
  let q1 := git_query repo_path ["status"; "--porcelain"] s in
  let s2 := if fetch then (git_query repo_path ["fetch"; "--quiet"] q1.2).2 else q1.2 in
  let q3 := git_query repo_path ["log"; "@{u}.."; "--oneline"] s2 in
  let q4 := git_query repo_path ["log"; "..@{u}"; "--oneline"] q3.2 in
  check_repo repo_path fetch s
  = (Ret (mkStatus true (field q1.1) (field q3.1) (field q4.1)), q4.2).
Proof.
  intros Hgit field q1 s2 q3 q4. unfold check_repo.
  rewrite bind_gets, Hgit. cbn [negb].
  rewrite (bind_eq _ _ _ _ _ (run_git_eq _ _ _)). fold q1.
  assert (Hfetch :
    (if fetch then bind (run_git repo_path ["fetch"; "--quiet"]) (fun _ => ret tt)
     else ret tt) q1.2 = (Ret tt, s2)).
  { unfold s2. destruct fetch; [|reflexivity].
    rewrite (bind_eq _ _ _ _ _ (run_git_eq _ _ _)). reflexivity. }
  rewrite (bind_eq _ _ _ _ _ Hfetch).
  rewrite (bind_eq _ _ _ _ _ (run_git_eq _ _ _)). fold q3.
  rewrite (bind_eq _ _ _ _ _ (run_git_eq _ _ _)). fold q4.
  unfold ret. f_equal. f_equal.
  destruct q1.1, q3.1, q4.1; reflexivity.
Qed.

Lemma git_query_calls repo_path args s :
  calls (git_query repo_path args s).2
  = calls s ++ [mkCall ("git" :: args) (Some repo_path)].
Proof.
  unfold git_query.
  destruct (subprocess_run E ("git" :: args) (Some repo_path) (fs s) (world s))
    as [[r f'] w']. reflexivity.
Qed.

(** [check_repo] always returns a snapshot. *)
Lemma check_repo_returns repo_path fetch s :
  exists st s', check_repo repo_path fetch s = (Ret st, s')
                /\ is_git_repo st = path_exists (repo_path // ".git") (fs s).
Proof.
  destruct (path_exists (repo_path // ".git") (fs s)) eqn:Hgit.
  - eexists _, _. split; [apply (check_repo_eq _ _ _ Hgit)|reflexivity].
  - eexists _, _. unfold check_repo. rewrite bind_gets, Hgit. split; reflexivity.
Qed.

(** [check_repo] prints nothing. *)
Lemma check_repo_out repo_path fetch s st s' :
  check_repo repo_path fetch s = (Ret st, s') -> out s' = out s.
Proof.
  destruct (path_exists (repo_path // ".git") (fs s)) eqn:Hgit.
  - pose proof (check_repo_eq repo_path fetch s Hgit) as Hform. cbv zeta in Hform.
    rewrite Hform. intros [= _ <-]. unfold git_query.
    repeat match goal with
           | |- context [subprocess_run E ?a ?d ?f ?w] =>
               destruct (subprocess_run E a d f w) as [[? ?] ?]; cbn [fst snd out]
           | |- context [if fetch then _ else _] => destruct fetch
           end; reflexivity.
  - unfold check_repo. rewrite bind_gets, Hgit. intros [= _ <-]. reflexivity.
Qed.

Lemma truthy_false s : Str.truthy s = false <-> s = "".
Proof. destruct s; split; intros H; simplify_eq; done. Qed.

Lemma truthy_true s : Str.truthy s = true <-> s <> "".
Proof. destruct s; split; intros H; simplify_eq; done. Qed.

(** The body of the loop over the repositories, on a git repository
    whose snapshot is [st]. *)
Lemma check_workspace_repo_eq fetch repo counts s st s' :
  path_is_dir repo (fs s) = true ->
  check_repo repo fetch s = (Ret st, s') ->
  is_git_repo st = true ->
  let has_issues := Str.truthy (uncommitted st) || Str.truthy (outgoing st)
                    || Str.truthy (incoming st) in
  let section (text title color : string) :=
    if Str.truthy text then title :: map (colored color) (Str.split Str.nl text)
    else [] in
  check_workspace_repo fetch repo counts s
  = (Ret (if has_issues then (counts.1, S counts.2) else (S counts.1, counts.2)),
     printed
       ((if has_issues then [Colors.CYAN +:+ Path_str repo +:+ Colors.RESET] else [])
        ++ section (uncommitted st) "   Uncommitted changes:" Colors.YELLOW
        ++ section (outgoing st) "   Outgoing commits (not pushed):" Colors.GREEN
        ++ section (incoming st) "   Incoming commits (not pulled):" Colors.RED)
       s').
Proof.
  intros Hdir Hcheck Hgit has_issues section. unfold check_workspace_repo.
  rewrite bind_gets, Hdir. cbn [negb].
  rewrite (bind_eq _ _ _ _ _ Hcheck), Hgit. cbn [negb].
  fold has_issues.
  assert (Hsec : forall text title color (k : unit -> M (nat * nat)) s0,
    bind (if Str.truthy text then
            bind (print title)
              (fun _ => for_each (Str.split Str.nl text)
                          (fun line => print (color +:+ "      " +:+ line +:+ Colors.RESET)))
          else ret tt) k s0
    = k tt (printed (section text title color) s0)).
  { intros text title color k s0. unfold section. destruct (Str.truthy text).
    - rewrite bind_bind, bind_print.
      rewrite (bind_eq _ _ _ _ _ (for_each_print _ (colored color) _)).
      by rewrite printed_printed.
    - by rewrite bind_ret, printed_nil. }
  destruct has_issues.
  - rewrite bind_bind, bind_print, ?bind_ret.
    rewrite !Hsec. unfold ret. by rewrite !printed_printed.
  - rewrite ?bind_ret, !Hsec. unfold ret. by rewrite !printed_printed.
Qed.

(** C3.  A git repository under [repos/] whose snapshot has uncommitted
    changes and no outgoing and no incoming commits is counted as dirty,
    and its report is its name followed by the uncommitted section
    alone; the loop then goes on with the other repositories. *)
Theorem dirty_repo_reports_uncommitted_only (fetch : bool) (repo : Path)
    (rest : list Path) (counts : nat * nat) (s s' : state E) (st : status) :
  path_is_dir repo (fs s) = true ->
  path_exists (repo // ".git") (fs s) = true ->
  check_repo repo fetch s = (Ret st, s') ->
  uncommitted st <> "" -> outgoing st = "" -> incoming st = "" ->
  check_workspace_loop fetch (repo :: rest) counts s
  = check_workspace_loop fetch rest (counts.1, S counts.2)
      (printed
         ([Colors.CYAN +:+ Path_str repo +:+ Colors.RESET; "   Uncommitted changes:"]
          ++ map (colored Colors.YELLOW) (Str.split Str.nl (uncommitted st)))
         s')
  /\ out s' = out s.
Proof.
  intros Hdir Hgit Hcheck Hu Ho Hi.
  split; [|exact (check_repo_out _ _ _ _ _ Hcheck)]. cbn [check_workspace_loop].
  destruct (check_repo_returns repo fetch s) as (st0 & s0 & Heq & Hrepo).
  rewrite Hcheck in Heq. injection Heq as <- <-. rewrite Hgit in Hrepo.
  rewrite (bind_eq _ _ _ _ _ (check_workspace_repo_eq _ _ counts _ _ _ Hdir Hcheck Hrepo)).
  apply truthy_true in Hu. rewrite Hu, Ho, Hi. cbn [orb Str.truthy app].
  by rewrite app_nil_r.
Qed.

(** C9.  A git repository under [repos/] whose snapshot has no
    uncommitted changes and no outgoing and no incoming commits is
    counted as clean and nothing is printed for it. *)
Theorem clean_repo_reports_nothing (fetch : bool) (repo : Path)
    (rest : list Path) (counts : nat * nat) (s s' : state E) (st : status) :
  path_is_dir repo (fs s) = true ->
  path_exists (repo // ".git") (fs s) = true ->
  check_repo repo fetch s = (Ret st, s') ->
  uncommitted st = "" -> outgoing st = "" -> incoming st = "" ->
  check_workspace_loop fetch (repo :: rest) counts s
  = check_workspace_loop fetch rest (S counts.1, counts.2) s'
  /\ out s' = out s.
Proof.
  intros Hdir Hgit Hcheck Hu Ho Hi. cbn [check_workspace_loop].
  destruct (check_repo_returns repo fetch s) as (st0 & s0 & Heq & Hrepo).
  rewrite Hcheck in Heq. injection Heq as <- <-. rewrite Hgit in Hrepo.
  rewrite (bind_eq _ _ _ _ _ (check_workspace_repo_eq _ _ counts _ _ _ Hdir Hcheck Hrepo)).
  rewrite Hu, Ho, Hi. cbn [orb Str.truthy app]. rewrite printed_nil.
  split; [reflexivity|]. exact (check_repo_out _ _ _ _ _ Hcheck).
Qed.

(** C8, as amended.  In a repository under [repos/], the four queries
    of [check_repo] (three without the fetch flag) are all run, in
    order, whatever became of the ones before.  A query that could not
    be started leaves its field of the snapshot empty; a query that ran
    leaves its stripped standard output there whatever its return code,
    so that a git that ends with an error leaves the field empty only
    when it wrote nothing to its standard output.  [check_repo] prints
    nothing and returns the snapshot, the repository is counted and
    reported by its snapshot, and the loop goes on with the remaining
    repositories. *)
Theorem git_failure_leaves_field_empty (fetch : bool) (repo : Path)
    (rest : list Path) (counts : nat * nat) (s : state E) :
  path_is_dir repo (fs s) = true ->
  path_exists (repo // ".git") (fs s) = true ->
  let q1 := git_query repo ["status"; "--porcelain"] s in
  let s2 := if fetch then (git_query repo ["fetch"; "--quiet"] q1.2).2 else q1.2 in
  let q3 := git_query repo ["log"; "@{u}.."; "--oneline"] s2 in
  let q4 := git_query repo ["log"; "..@{u}"; "--oneline"] q3.2 in
  let st := mkStatus true (git_field q1.1) (git_field q3.1) (git_field q4.1) in
  check_repo repo fetch s = (Ret st, q4.2)
  /\ calls q4.2 = calls s ++ git_calls repo fetch
  /\ out q4.2 = out s
  /\ check_workspace_loop fetch (repo :: rest) counts s
     = check_workspace_loop fetch rest
         (if has_issues st then (counts.1, S counts.2) else (S counts.1, counts.2))
         (printed (repo_report repo st) q4.2).
Proof.
  intros Hdir Hgit q1 s2 q3 q4 st.
  pose proof (check_repo_eq repo fetch s Hgit) as Hform. cbv zeta in Hform.
  fold q1 s2 q3 q4 in Hform.
  assert (Hrun : check_repo repo fetch s = (Ret st, q4.2)) by exact Hform.
  split; [exact Hrun|]. split.
  { unfold q4, q3, s2, q1, git_calls. rewrite !git_query_calls.
    destruct fetch; rewrite ?git_query_calls, <- ?app_assoc; reflexivity. }
  split; [exact (check_repo_out _ _ _ _ _ Hrun)|].
  cbn [check_workspace_loop].
  rewrite (bind_eq _ _ _ _ _
             (check_workspace_repo_eq fetch repo counts s st q4.2 Hdir Hrun eq_refl)).
  reflexivity.
Qed.

Lemma check_header_eq {B : Type} (fetch : bool) (k : unit -> M B) s :
  bind (print (Colors.BLUE +:+ "Checking workspaces for git changes..." +:+ Colors.RESET))
    (fun _ =>
       bind (if fetch
             then print (Colors.YELLOW +:+ "(fetching from remotes)" +:+ Colors.RESET)
             else ret tt)
         (fun _ => bind (print "") k)) s
  = k tt (printed (check_header fetch) s).
Proof.
  rewrite bind_print. unfold check_header.
  destruct fetch;
    repeat first [rewrite bind_print | rewrite bind_ret | rewrite printed_printed];
    reflexivity.
Qed.



(** *** Exporter *)

Lemma for_each_source_entry_line (l : list repo_entry) s :
  (forall entry, In entry l -> repo_path entry <> None) ->
  for_each l source_entry_line s = (Ret tt, printed (map source_line l) s).
Proof.
  revert s. induction l as [|entry l IH]; intros s Hpath; cbn [for_each map].
  - by rewrite printed_nil.
  - assert (Hline : source_entry_line entry s = (Ret tt, printed [source_line entry] s)).
    { unfold source_entry_line, source_line.
      destruct (repo_path entry) eqn:Hp; [reflexivity|].
      by destruct (Hpath entry (or_introl eq_refl)). }
    rewrite (bind_eq _ _ _ _ _ Hline), IH, printed_printed; [reflexivity|].
    intros e He. apply Hpath. by right.
Qed.

(** C7, as amended.  When the copies of Export are done and the
    manifest then read has entries with a source that is not empty
    (each with its path), Export prints the
    note with the number of such entries and one line per entry giving
    its path and its source, prints the closing lines and returns: the
    note changes neither the file system nor the way the command ends. *)
Theorem export_reports_source_entries (workspace destination text : string)
    (config : config) (export_path workspace_toml : Path) (s s1 : state E) :
  export_files workspace destination s = (Ret (export_path, workspace_toml), s1) ->
  read_file workspace_toml (fs s1) = inr text ->
  tomllib_load E text = Some config ->
  let source_entries := List.filter has_source (default [] (cfg_repos config)) in
  source_entries <> [] ->
  (forall entry, In entry source_entries -> repo_path entry <> None) ->
  cmd_export workspace destination s
  = (Ret tt,
     printed
       ([Str.nl +:+ Colors.YELLOW +:+ "Note: This workspace has "
         +:+ Str.of_nat (length source_entries) +:+ " local source entries."
         +:+ Colors.RESET;
         "Recipients will need to update these paths in workspace.toml:"]
        ++ map source_line source_entries
        ++ [Str.nl +:+ Colors.GREEN +:+ "Export complete!" +:+ Colors.RESET;
            "To set up: cd " +:+ Path_str export_path +:+ " && ./workspace.py setup "
            +:+ workspace])
       s1).
Proof.
  intros Hfiles Hread Hload source_entries Hsome Hpaths. unfold cmd_export.
  rewrite (bind_eq _ _ _ _ _ Hfiles). cbn [fst snd]. unfold export_note.
  rewrite (bind_eq _ _ _ _ _ (load_toml_eq _ _ _ _ Hread Hload)).
  fold source_entries. destruct source_entries as [|entry others] eqn:Hentries;
    [done|]. rewrite <- Hentries in *.
  run. rewrite (bind_eq _ _ _ _ _ (for_each_source_entry_line _ _ Hpaths)).
  run. rewrite ?print_eq, ?printed_printed, <- ?app_assoc. reflexivity.
Qed.

(** *** Note Linker: the report for a workspace folder that exists *)




(** *** Note Linker: linking a note, then linking it again *)

Lemma walk_lost_oserror (fuel : nat) (f : filesystem) (follow : bool)
    (cur todo : location) (e : exn) :
  walk fuel f follow cur todo = Lost e -> is_OSError e = true.
Proof.
  revert cur todo. induction fuel as [|fuel IH]; intros cur todo;
    destruct todo as [|c rest]; cbn [walk]; try done.
  - by intros [= <-].
  - destruct (String.eqb c ".."); [apply IH|].
    destruct (f !! (cur ++ [c])) as [[content| |t]|] eqn:Hk.
    + destruct rest; [done|]. by intros [= <-].
    + apply IH.
    + destruct rest, follow; try done; apply IH.
    + destruct rest; [done|]. by intros [= <-].
Qed.

Lemma hardlink_error (p target : Path) (f : filesystem) (e : exn) :
  path_hardlink_to p target f = inl e -> is_OSError e = true.
Proof.
  unfold path_hardlink_to, locate.
  destruct (walk _ f false _ (parts target)) as [k [c| |t]|k|e'] eqn:Ht;
    try (by intros [= <-]);
    try (intros [= <-]; by apply (walk_lost_oserror _ _ _ _ _ _ Ht));
    destruct (walk _ f false _ (parts p)) as [k' n'|k'|e''] eqn:Hp;
    try done; try (by intros [= <-]);
    intros [= <-]; by apply (walk_lost_oserror _ _ _ _ _ _ Hp).
Qed.

Lemma hardlink_made (p target : Path) (f f' : filesystem) (k : location) :
  locate false p f = Vacant k ->
  path_hardlink_to p target f = inr f' ->
  exists n, f' = <[k := n]> f /\ n <> Dir.
Proof.
  unfold path_hardlink_to. intros ->.
  destruct (locate false target f) as [k' [c| |t]|k'|e']; try done;
    intros [= <-]; eexists; split; done.
Qed.

Lemma hardlink_taken (p target : Path) (f : filesystem) (k : location) (n : node) :
  locate false p f = Found k n ->
  exists e, path_hardlink_to p target f = inl e.
Proof.
  unfold path_hardlink_to. intros ->.
  destruct (locate false target f) as [k' [c| |t]|k'|e']; eexists; reflexivity.
Qed.

(** The guarded hard link: an [OSError] is swallowed. *)
Lemma hardlink_step (workspace : string) (aibrief_link note : Path) (s : state E) :
  try_except
    (bind (gets (path_resolve note))
       (fun target =>
          bind (fs_do (path_hardlink_to aibrief_link target))
            (fun _ => print ("  + aibrief: " +:+ workspace +:+ ".md (hard linked)"))))
    (fun e => if is_OSError e then Some (ret tt) else None) s
  = match path_hardlink_to aibrief_link (path_resolve note (fs s)) (fs s) with
    | inl _ => (Ret tt, s)
    | inr fb =>
        (Ret tt, printed ["  + aibrief: " +:+ workspace +:+ ".md (hard linked)"]
                   (with_fs fb s))
    end.
Proof.
  unfold try_except, bind, gets, fs_do.
  destruct (path_hardlink_to aibrief_link (path_resolve note (fs s)) (fs s))
    as [e|fb] eqn:Hlink; [|reflexivity].
  by rewrite (hardlink_error _ _ _ _ Hlink).
Qed.

Lemma with_fs_same (s : state E) : with_fs (fs s) s = s.
Proof. by destruct s. Qed.

Lemma with_fs_with_fs (f g : filesystem) (s : state E) :
  with_fs f (with_fs g s) = with_fs f s.
Proof. reflexivity. Qed.

(** The hard-link step, when the name it uses in the brief directory is
    free or a regular file: it changes the file system at that name
    only, and run again on the result it changes nothing. *)
Lemma link_to_aibrief_settles (workspace : string) (aibrief_dir aibrief_link note : Path)
    (kb : location) (s : state E) :
  (locate false aibrief_link (fs s) = Vacant kb
   \/ exists c, locate false aibrief_link (fs s) = Found kb (File c)) ->
  exists fb l,
    link_to_aibrief workspace aibrief_dir aibrief_link note s
    = (Ret tt, printed l (with_fs fb s))
    /\ brief_lines workspace l
    /\ (forall k1, k1 <> kb -> fb !! k1 = fs s !! k1)
    /\ forall s', fs s' = fb ->
         exists l', link_to_aibrief workspace aibrief_dir aibrief_link note s'
                    = (Ret tt, printed l' s')
                    /\ brief_lines workspace l'.
Proof.
  intros Hname. unfold link_to_aibrief.
  destruct (path_is_dir aibrief_dir (fs s)) eqn:Hbrief.
  2:{ exists (fs s), []. rewrite bind_gets, Hbrief, printed_nil, with_fs_same.
      split; [reflexivity|]. split; [by left|]. split; [done|]. intros s' Hs'.
      exists []. rewrite bind_gets, Hs', Hbrief, printed_nil. split; [done|by left]. }
  (* the file system [g] in which the hard link is attempted *)
  assert (exists g,
    locate false aibrief_link g = Vacant kb
    /\ (forall k1, k1 <> kb -> g !! k1 = fs s !! k1)
    /\ bind (gets (path_exists aibrief_link))
         (fun old => if old then fs_do (path_unlink aibrief_link) else ret tt) s
       = (Ret tt, with_fs g s)) as (g & Hvac & Hsame & Hunlink).
  { destruct Hname as [Hv|[c Hf]].
    - exists (fs s). split; [done|]. split; [done|].
      rewrite bind_gets. unfold path_exists, locate in *.
      rewrite (walk_nofollow_follow _ _ _ _ _ Hv) by done.
      by rewrite with_fs_same.
    - exists (delete kb (fs s)). split; [by apply walk_found_delete in Hf|].
      split; [by intros k1 Hk1; rewrite lookup_delete_ne|].
      rewrite bind_gets. unfold path_exists, path_unlink, fs_do, locate in *.
      rewrite (walk_nofollow_follow _ _ _ _ _ Hf) by done. by rewrite Hf. }
  assert (Hdir : forall fb, (forall k1, k1 <> kb -> fb !! k1 = fs s !! k1) ->
                            path_is_dir aibrief_dir fb = true).
  { intros fb Hfb. unfold path_is_dir, locate in *.
    destruct (walk walk_fuel (fs s) true _ (parts aibrief_dir))
      as [q [c| |t]|q|e] eqn:Hw; try done.
    assert (Hkb : fs s !! kb = None \/ exists c, fs s !! kb = Some (File c)).
    { destruct Hname as [Hv|[c Hf]].
      - left. by apply (walk_vacant_lookup _ _ _ _ _ _ Hv).
      - right. exists c. by destruct (walk_found_lookup _ _ _ _ _ _ _ Hf). }
    by rewrite (walk_found_elsewhere _ _ fb _ _ _ kb _ _ Hkb Hfb Hw (or_intror eq_refl)). }
  pose proof (walk_vacant_lookup _ _ _ _ _ _ Hvac) as Hnone.
  rewrite bind_gets, Hbrief. rewrite <- bind_bind.
  rewrite (bind_eq _ _ _ _ _ Hunlink), hardlink_step. cbn [fs with_fs].
  destruct (path_hardlink_to aibrief_link (path_resolve note g) g) as [e|fb] eqn:Hlink.
  - (* the hard link fails: nothing is added, and nothing will be *)
    exists g, []. rewrite printed_nil. split; [reflexivity|]. split; [by left|].
    split; [done|].
    intros s' Hs'. exists []. split; [|by left].
    rewrite printed_nil, bind_gets, Hs', (Hdir g Hsame).
    rewrite <- bind_bind.
    assert (Hold : bind (gets (path_exists aibrief_link))
              (fun old => if old then fs_do (path_unlink aibrief_link) else ret tt) s'
            = (Ret tt, s')).
    { rewrite bind_gets, Hs'. unfold path_exists, locate in *.
      by rewrite (walk_nofollow_follow _ _ _ _ _ Hvac). }
    rewrite (bind_eq _ _ _ _ _ Hold), hardlink_step, Hs', Hlink. reflexivity.
  - (* the hard link is made *)
    destruct (hardlink_made _ _ _ _ _ Hvac Hlink) as (n & -> & Hn).
    eexists _, [_]. split; [reflexivity|]. split; [by right|].
    assert (Hfb : forall k1, k1 <> kb -> <[kb := n]> g !! k1 = fs s !! k1).
    { intros k1 Hk1. rewrite lookup_insert_ne by done. by apply Hsame. }
    split; [done|]. intros s' Hs'.
    assert (Hfound : locate false aibrief_link (fs s') = Found kb n).
    { rewrite Hs'. unfold locate in *. apply walk_vacant_insert; [by left|done]. }
    assert (Hd' : path_is_dir aibrief_dir (fs s') = true).
    { rewrite Hs'. exact (Hdir _ Hfb). }
    rewrite bind_gets, Hd'. rewrite <- bind_bind.
    destruct (path_exists aibrief_link (fs s')) eqn:Hold.
    + assert (Hun : bind (gets (path_exists aibrief_link))
                (fun old => if old then fs_do (path_unlink aibrief_link) else ret tt) s'
              = (Ret tt, with_fs g s')).
      { rewrite bind_gets, Hold. unfold fs_do, path_unlink. rewrite Hfound.
        destruct n as [c| |t]; [|done|];
          rewrite Hs', delete_insert_eq, delete_id by done; reflexivity. }
      rewrite (bind_eq _ _ _ _ _ Hun), hardlink_step. cbn [fs with_fs]. rewrite Hlink.
      eexists [_]. rewrite <- Hs', with_fs_with_fs, with_fs_same.
      split; [done|by right].
    + assert (Hun : bind (gets (path_exists aibrief_link))
                (fun old => if old then fs_do (path_unlink aibrief_link) else ret tt) s'
              = (Ret tt, s')).
      { by rewrite bind_gets, Hold. }
      rewrite (bind_eq _ _ _ _ _ Hun), hardlink_step.
      destruct (hardlink_taken aibrief_link (path_resolve note (fs s')) _ _ _ Hfound)
        as [e ->].
      exists []. rewrite printed_nil. split; [done|by left].
Qed.




(* ===================================================================== *)
(** ** Further properties of the commands *)
(* ===================================================================== *)

(** *** Commands that only add to the file system *)

Lemma adds_ret {A : Type} (a : A) : adds (ret a).
Proof. intros s r s' [= _ <-]. done. Qed.

Lemma adds_exit {A : Type} (c : Z) : adds (@sys_exit A c).
Proof. intros s r s' [= _ <-]. done. Qed.

Lemma adds_raise {A : Type} (e : exn) : adds (@raise A e).
Proof. intros s r s' [= _ <-]. done. Qed.

Lemma adds_print (line : string) : adds (print line).
Proof. intros s r s' [= _ <-]. done. Qed.

Lemma adds_gets {A : Type} (f : filesystem -> A) : adds (gets f).
Proof. intros s r s' [= _ <-]. done. Qed.

Lemma adds_fs_read {A : Type} (op : filesystem -> exn + A) : adds (fs_read op).
Proof. intros s r s'. unfold fs_read. destruct (op (fs s)); intros [= _ <-]; done. Qed.

Lemma adds_attempt {A : Type} (r : exn + A) : adds (attempt r).
Proof. intros s o s'. unfold attempt. destruct r; intros [= _ <-]; done. Qed.

Lemma adds_fs_do (op : filesystem -> exn + filesystem) : op_adds op -> adds (fs_do op).
Proof.
  intros Hop s r s'. unfold fs_do. destruct (op (fs s)) as [e|f'] eqn:Hrun.
  - intros [= _ <-]. done.
  - intros [= _ <-]. exact (Hop _ _ Hrun).
Qed.

Lemma adds_bind {A B : Type} (m : M A) (k : A -> M B) :
  adds m -> (forall a, adds (k a)) -> adds (bind m k).
Proof.
  intros Hm Hk s r s'. unfold bind. destruct (m s) as [[a|c|e] s1] eqn:Hrun.
  - intros Hrest. transitivity (fs s1); [exact (Hm _ _ _ Hrun)|exact (Hk _ _ _ _ Hrest)].
  - intros [= _ <-]. exact (Hm _ _ _ Hrun).
  - intros [= _ <-]. exact (Hm _ _ _ Hrun).
Qed.

Lemma adds_for_each {A : Type} (l : list A) (body : A -> M unit) :
  (forall x, adds (body x)) -> adds (for_each l body).
Proof.
  intros Hbody. induction l as [|x l IH]; cbn [for_each].
  - apply adds_ret.
  - apply adds_bind; [apply Hbody|intros _; exact IH].
Qed.

Lemma adds_load_toml (p : Path) : adds (load_toml p).
Proof.
  unfold load_toml. apply adds_bind; [apply adds_fs_read|].
  intros text. destruct (tomllib_load E text); [apply adds_ret|apply adds_raise].
Qed.

Lemma os_mkdir_adds (p : Path) : op_adds (os_mkdir p).
Proof.
  intros f f'. unfold os_mkdir, locate.
  destruct (walk _ f false _ (parts p)) as [k n|k|e] eqn:Hw; try done.
  intros [= <-]. apply insert_subseteq. exact (walk_vacant_lookup _ _ _ _ _ _ Hw).
Qed.

Lemma path_mkdir_adds (exist_ok : bool) (p : Path) : op_adds (path_mkdir exist_ok p).
Proof.
  intros f f'. unfold path_mkdir.
  destruct (os_mkdir p f) as [e|f1] eqn:Hmk.
  - destruct e; try done; destruct (exist_ok && path_is_dir p f); try done;
      by intros [= <-].
  - intros [= <-]. exact (os_mkdir_adds _ _ _ Hmk).
Qed.

Lemma path_symlink_to_adds (p target : Path) : op_adds (path_symlink_to p target).
Proof.
  intros f f'. unfold path_symlink_to, locate.
  destruct (walk _ f false _ (parts p)) as [k n|k|e] eqn:Hw; try done.
  intros [= <-]. apply insert_subseteq. exact (walk_vacant_lookup _ _ _ _ _ _ Hw).
Qed.

(** Writing a file that does not exist adds it (also at the far end of a
    dangling link). *)
Lemma write_file_adds (p : Path) (content : string) (f f' : filesystem) :
  path_exists p f = false -> write_file p content f = inr f' -> f ⊆ f'.
Proof.
  unfold path_exists, write_file, locate.
  destruct (walk _ f true _ (parts p)) as [k n|k|e] eqn:Hw; try done.
  intros _ [= <-]. apply insert_subseteq. exact (walk_vacant_lookup _ _ _ _ _ _ Hw).
Qed.

(** [if not p.exists(): write p; print] *)
Lemma adds_write_if_absent (p : Path) (content line : string) :
  adds (bind (gets (path_exists p))
          (fun present =>
             if negb present then bind (fs_do (write_file p content)) (fun _ => print line)
             else ret tt)).
Proof.
  intros s r s'. rewrite bind_gets.
  destruct (path_exists p (fs s)) eqn:Hthere; cbn [negb].
  - intros [= _ <-]. done.
  - unfold bind, fs_do. destruct (write_file p content (fs s)) as [e|f'] eqn:Hw.
    + intros [= _ <-]. done.
    + intros [= _ <-]. exact (write_file_adds _ _ _ _ Hthere Hw).
Qed.

Lemma setup_claude_symlinks_adds_lemma (workspace_path : Path) :
  adds (setup_claude_symlinks workspace_path).
Proof.
  unfold setup_claude_symlinks.
  apply adds_bind; [apply adds_gets|]. intros found.
  destruct (negb found); [apply adds_print|].
  repeat (apply adds_bind; [apply adds_fs_do, path_mkdir_adds|intros _]).
  do 2 (apply adds_bind; [apply adds_gets|intros ?];
        apply adds_bind; [apply adds_gets|intros ?];
        apply adds_bind;
          [match goal with
           | |- adds (if ?b then _ else _) =>
               destruct b;
               [apply adds_bind;
                  [apply adds_fs_do, path_symlink_to_adds|intros _; apply adds_print]
               |apply adds_ret]
           end|intros _]).
  apply adds_write_if_absent.
Qed.

(** X1.  Whatever the file system and however it ends, the [.claude]
    scaffolding of Setup removes and overwrites nothing: every name that
    was there before is there after, with the same node. *)
Theorem setup_claude_symlinks_only_adds (workspace_path : Path) (s s' : state E)
    (r : outcome unit) :
  setup_claude_symlinks workspace_path s = (r, s') ->
  fs s ⊆ fs s'.
Proof. exact (setup_claude_symlinks_adds_lemma workspace_path s r s'). Qed.

(** *** Setup: fatal inputs and failing entries *)


(** X3.  An entry without a [path] key: the list in [CLAUDE.md] names it
    [unknown], but the loop over the entries raises [KeyError] at it and
    stops there: the entries after it are not set up. *)
Theorem setup_entry_without_path (workspace_path : Path) (repo : repo_entry)
    (rest : list repo_entry) (s : state E) :
  repo_path repo = None ->
  repos_line repo = "- `unknown` - [description]"
  /\ for_each (repo :: rest) (setup_repo workspace_path) s = (Raise (KeyError "path"), s).
Proof.
  intros Hpath. split.
  - unfold repos_line. rewrite Hpath. reflexivity.
  - cbn [for_each]. unfold setup_repo. rewrite Hpath. reflexivity.
Qed.


(** *** Setup as a whole only adds *)

Lemma adds_clone (remote target : string) :
  clone_adds -> adds (run_process ["git"; "clone"; remote; target] None).
Proof.
  intros Hclone s r s'. unfold run_process.
  pose proof (Hclone remote target None (fs s) (world s)) as Hsub.
  destruct (subprocess_run E ["git"; "clone"; remote; target] None (fs s) (world s))
    as [[c f'] w']. intros [= _ <-]. exact Hsub.
Qed.

Lemma setup_repo_adds (workspace_path : Path) (repo : repo_entry) :
  clone_adds -> adds (setup_repo workspace_path repo).
Proof.
  intros Hclone. unfold setup_repo.
  destruct (repo_path repo) as [p|]; [|apply adds_raise].
  apply adds_bind; [apply adds_gets|intros there].
  apply adds_bind; [apply adds_gets|intros linked].
  destruct (there || linked); [apply adds_print|].
  destruct (truthy_get (repo_source repo)) as [source|].
  - apply adds_bind; [apply adds_attempt|intros expanded].
    apply adds_bind; [apply adds_gets|intros source_path].
    apply adds_bind; [apply adds_gets|intros found].
    destruct (negb found); [apply adds_print|].
    apply adds_bind; [apply adds_fs_do, path_symlink_to_adds|intros _; apply adds_print].
  - destruct (truthy_get (repo_remote repo)) as [remote|]; [|apply adds_print].
    apply adds_bind; [by apply adds_clone|intros [rc out err|msg]].
    + destruct rc; [apply adds_print| |];
        (destruct (Str.utf8 err); [apply adds_print|apply adds_raise]).
    + apply adds_raise.
Qed.

(** [if not p.exists(): write p; print], followed by the rest *)
Lemma adds_write_if_absent_then {B : Type} (p : Path) (content line : string)
    (rest : M B) :
  adds rest ->
  adds (bind (gets (path_exists p))
          (fun present =>
             bind (if negb present
                   then bind (fs_do (write_file p content)) (fun _ => print line)
                   else ret tt)
               (fun _ => rest))).
Proof.
  intros Hrest s r s'. rewrite bind_gets.
  destruct (path_exists p (fs s)) eqn:Hthere; cbn [negb].
  - rewrite bind_ret. apply Hrest.
  - rewrite bind_bind. unfold bind at 1, fs_do.
    destruct (write_file p content (fs s)) as [e|f'] eqn:Hw.
    + intros [= _ <-]. done.
    + intros Hrun. transitivity f'; [exact (write_file_adds _ _ _ _ Hthere Hw)|].
      rewrite bind_print in Hrun. exact (Hrest _ _ _ Hrun).
Qed.

Lemma cmd_setup_adds (workspace : string) : clone_adds -> adds (cmd_setup workspace).
Proof.
  intros Hclone. unfold cmd_setup.
  apply adds_bind; [apply adds_gets|intros found].
  destruct (negb found);
    [apply adds_bind; [apply adds_print|intros _; apply adds_exit]|].
  apply adds_bind; [apply adds_gets|intros found'].
  destruct (negb found');
    [apply adds_bind; [apply adds_print|intros _; apply adds_exit]|].
  apply adds_bind; [apply adds_load_toml|intros config].
  destruct (cfg_repos config) as [repos|];
    [|apply adds_bind; [apply adds_print|intros _; apply adds_exit]].
  apply adds_bind; [apply adds_fs_do, path_mkdir_adds|intros _].
  apply adds_bind; [apply adds_gets|intros present].
  apply adds_bind.
  { destruct (negb present); [|apply adds_ret].
    apply adds_bind; [apply adds_fs_do, path_mkdir_adds|intros _; apply adds_print]. }
  intros _. cbv zeta. apply adds_write_if_absent_then.
  apply adds_bind; [apply adds_print|intros _].
  apply adds_bind; [apply setup_claude_symlinks_adds_lemma|intros _].
  apply adds_bind; [apply adds_print|intros _].
  apply adds_bind; [|intros _; apply adds_print].
  apply adds_for_each. intros repo. by apply setup_repo_adds.
Qed.

(** X5.  When git's clone removes and overwrites nothing, neither does
    Setup: however the run ends (done, exit, exception), every name
    that was in the file system before is there after it, with the same
    node.  Every write of Setup is behind a test that the path does not
    exist. *)
Theorem setup_only_adds (workspace : string) (s s' : state E) (r : outcome unit) :
  clone_adds ->
  cmd_setup workspace s = (r, s') ->
  fs s ⊆ fs s'.
Proof. intros Hclone. exact (cmd_setup_adds workspace Hclone s r s'). Qed.

(** *** Note Linker: the vault, the search and the notes *)

(** The path of the vault has no [~] to expand. *)
Lemma vault_expanduser :
  expanduser (Path_of "../Notes/notes") = inr (Path_of "../Notes/notes").
Proof. reflexivity. Qed.

(** X6.  What stops the Note Linker before any note is looked at.  A
    vault that does not exist is reported and ends the run with exit
    code 1, without a search and without a write.  A search that cannot
    be started is reported with exit code 1.  A search that prints
    nothing (or blank space only) gives no note: the command returns
    without printing or writing anything.  (The last two are stated
    for a home without [Dropbox/Apps].) *)
Theorem link_before_the_notes (s : state E) :
  let vault := Path_of "../Notes/notes" in
  let searched := run_process ["grep"; "-rl"; "^workspace: "; Path_str vault] None s in
  (path_exists vault (fs s) = false ->
   cmd_link s
   = (Exit 1,
      printed [Colors.RED +:+ "Vault not found: " +:+ Path_str vault +:+ Colors.RESET] s))
  /\ (path_exists vault (fs s) = true ->
      path_exists (home E // "Dropbox/Apps") (fs s) = false ->
      (forall msg,
         searched.1 = Ret (NotStarted msg) ->
         cmd_link s
         = (Exit 1,
            printed [Colors.RED +:+ "Error searching vault: " +:+ msg +:+ Colors.RESET]
              searched.2))
      /\ (forall rc stdout stderr,
            searched.1 = Ret (Completed rc stdout stderr) ->
            Str.strip stdout = "" ->
            cmd_link s = (Ret tt, searched.2))).
Proof.
  intros vault searched. unfold cmd_link.
  rewrite (bind_attempt _ _ _ _ vault_expanduser). fold vault. split.
  - intros Hvault. rewrite !bind_gets, Hvault. reflexivity.
  - intros Hvault Happs. rewrite !bind_gets, Hvault. cbn [negb].
    rewrite bind_gets, Happs, bind_ret. split.
    + intros msg Hrun.
      rewrite (bind_eq _ _ _ _ _ (eq_trans (surjective_pairing _)
                 (f_equal (fun r => (r, searched.2)) Hrun))).
      reflexivity.
    + intros rc stdout stderr Hrun Hblank.
      rewrite (bind_eq _ _ _ _ _ (eq_trans (surjective_pairing _)
                 (f_equal (fun r => (r, searched.2)) Hrun))).
      rewrite Hblank. reflexivity.
Qed.

Lemma read_text_decoded (p : Path) (f : filesystem) (bytes text : string) :
  read_file p f = inr bytes -> Str.decode bytes = Some text -> read_text p f = inr text.
Proof. unfold read_text. by intros -> ->. Qed.

Lemma note_workspace_none (lines : list string) :
  Forall (fun line => Str.startswith "workspace: " line = false) lines ->
  note_workspace lines = None.
Proof.
  induction 1 as [|line lines Hline _ IH]; cbn [note_workspace]; [done|].
  by rewrite Hline.
Qed.

(** X7.  Notes the loop does not link.  A note that cannot be opened
    (its name being within the limits of the operating system) raises,
    and the loop stops at it: the notes after it are not processed.  A
    note whose bytes decode as text, and none of whose lines, cut at
    line feeds and carriage returns alike, starts with [workspace: ],
    is passed over without a message or a write, and the loop goes
    on. *)
Theorem link_notes_not_linked (workspaces_dir aibrief_dir note : Path)
    (rest : list Path) (s : state E) :
  (forall e,
     within_limits note (fs s) = true ->
     read_file note (fs s) = inl e ->
     for_each (note :: rest) (link_note workspaces_dir aibrief_dir) s = (Raise e, s))
  /\ (forall bytes text,
        read_file note (fs s) = inr bytes ->
        Str.decode bytes = Some text ->
        Forall (fun line => Str.startswith "workspace: " line = false) (Str.lines text) ->
        for_each (note :: rest) (link_note workspaces_dir aibrief_dir) s
        = for_each rest (link_note workspaces_dir aibrief_dir) s).
Proof.
  split.
  - intros e _ Hread. cbn [for_each]. unfold link_note, fs_read, bind at 1 2, read_text.
    rewrite Hread. reflexivity.
  - intros bytes text Hread Hdec Hnone. cbn [for_each]. unfold link_note.
    rewrite bind_bind, (bind_fs_read _ _ _ _ (read_text_decoded _ _ _ _ Hread Hdec)),
      (note_workspace_none _ Hnone).
    reflexivity.
Qed.

(** X8.  The hard-link step for a note that does not lead into a loop
    of links, when the brief directory and the name it uses there are
    within the limits of the operating system and that name is free or
    a regular file: it returns without an exception whatever becomes of
    the link, it changes the file system at that one name only, and run
    again on the result it leaves the file system as it is. *)
Theorem link_to_aibrief_idempotent (workspace : string)
    (aibrief_dir aibrief_link note : Path) (kb : location) (s : state E) :
  within_limits aibrief_dir (fs s) = true ->
  within_limits aibrief_link (fs s) = true ->
  link_loop note (fs s) = false ->
  (locate false aibrief_link (fs s) = Vacant kb
   \/ exists c, locate false aibrief_link (fs s) = Found kb (File c)) ->
  exists s1,
    (link_to_aibrief workspace aibrief_dir aibrief_link note s).1 = Ret tt
    /\ (link_to_aibrief workspace aibrief_dir aibrief_link note s).2 = s1
    /\ (forall k, k <> kb -> fs s1 !! k = fs s !! k)
    /\ (link_to_aibrief workspace aibrief_dir aibrief_link note s1).1 = Ret tt
    /\ fs (link_to_aibrief workspace aibrief_dir aibrief_link note s1).2 = fs s1.
Proof.
  intros _ _ _ Hname.
  destruct (link_to_aibrief_settles workspace aibrief_dir aibrief_link note kb s Hname)
    as (fb & l & Hrun & _ & Hsame & Hagain).
  exists (printed l (with_fs fb s)). rewrite Hrun. cbn [fst snd].
  split; [done|]. split; [done|]. split; [exact Hsame|].
  destruct (Hagain (printed l (with_fs fb s)) eq_refl) as (l' & Hrun' & _).
  rewrite Hrun'. split; reflexivity.
Qed.

(** *** Exporter: fatal inputs, symbolic links, entries without a path *)



(** X11.  The end of Export on a manifest without a usable note.  With
    no entry that has a source, the two closing lines are all that is
    printed.  With a source entry that has no [path] key, the note is
    begun, the entries before it are listed, and then [KeyError]
    escapes: the closing lines are never printed, although every copy
    has been made. *)
Theorem export_note_edges (workspace text : string) (config : config)
    (export_path workspace_toml : Path) (s : state E) :
  read_file workspace_toml (fs s) = inr text ->
  tomllib_load E text = Some config ->
  let source_entries := List.filter has_source (default [] (cfg_repos config)) in
  (source_entries = [] ->
   export_note workspace export_path workspace_toml s
   = (Ret tt,
      printed [Str.nl +:+ Colors.GREEN +:+ "Export complete!" +:+ Colors.RESET;
               "To set up: cd " +:+ Path_str export_path
               +:+ " && ./workspace.py setup " +:+ workspace] s))
  /\ (forall before entry after,
        source_entries = before ++ entry :: after ->
        (forall e, In e before -> repo_path e <> None) ->
        repo_path entry = None ->
        export_note workspace export_path workspace_toml s
        = (Raise (KeyError "path"),
           printed ([Str.nl +:+ Colors.YELLOW +:+ "Note: This workspace has "
                     +:+ Str.of_nat (length source_entries)
                     +:+ " local source entries." +:+ Colors.RESET;
                     "Recipients will need to update these paths in workspace.toml:"]
                    ++ map source_line before) s)).
Proof.
  intros Hread Hload source_entries. unfold export_note.
  rewrite (bind_eq _ _ _ _ _ (load_toml_eq _ _ _ _ Hread Hload)).
  fold source_entries. split.
  - intros ->. run. rewrite print_eq, printed_printed. reflexivity.
  - intros before entry after Hsplit Hpaths Hnone.
    assert (Hloop : forall s0,
      for_each (before ++ entry :: after) source_entry_line s0
      = (Raise (KeyError "path"), printed (map source_line before) s0)).
    { clear Hsplit. induction before as [|e before IH]; intros s0.
      - cbn [app for_each map]. unfold source_entry_line at 1. rewrite Hnone.
        by rewrite printed_nil.
      - cbn [app for_each map].
        assert (Hline : source_entry_line e s0 = (Ret tt, printed [source_line e] s0)).
        { unfold source_entry_line, source_line.
          destruct (repo_path e) eqn:Hp; [reflexivity|].
          by destruct (Hpaths e (or_introl eq_refl)). }
        rewrite (bind_eq _ _ _ _ _ Hline), IH, printed_printed; [reflexivity|].
        intros e' He'. apply Hpaths. by right. }
    destruct source_entries as [|e0 others] eqn:Hentries.
    { by destruct before. }
    rewrite <- Hentries, Hsplit in *. run. unfold bind at 1.
    rewrite Hloop, !printed_printed, <- ?app_assoc. reflexivity.
Qed.

(** *** Status Checker: the workspaces found and the git it runs *)

Lemma parts_leb_total (a b : list string) :
  parts_leb a b = false -> parts_leb b a = true.
Proof.
  revert b. induction a as [|x a IH]; intros [|y b]; cbn [parts_leb]; try done.
  rewrite (String.compare_antisym y x).
  destruct (String.compare x y); cbn [CompOpp]; try done. apply IH.
Qed.

Lemma Path_leb_total (p q : Path) : Path_leb p q = false -> Path_leb q p = true.
Proof.
  unfold Path_leb. destruct (absolute p), (absolute q); try done;
    apply parts_leb_total.
Qed.

Lemma insert_sorted_In (p q : Path) (l : list Path) :
  In q (insert_sorted p l) <-> q = p \/ In q l.
Proof.
  induction l as [|r l IH]; cbn [insert_sorted In].
  - split; intros [H|H]; auto.
  - destruct (Path_leb p r); cbn [In]; [split; intros [H|H]; auto|].
    rewrite IH. split; intros [H|[H|H]]; auto.
Qed.

Lemma sorted_In (q : Path) (l : list Path) : In q (sorted l) <-> In q l.
Proof.
  unfold sorted. induction l as [|p l IH]; cbn [foldr In]; [done|].
  rewrite insert_sorted_In, IH. split; intros [H|H]; auto.
Qed.

Lemma insert_sorted_is_sorted (p : Path) (l : list Path) :
  is_sorted l = true -> is_sorted (insert_sorted p l) = true.
Proof.
  induction l as [|q l IH]; cbn [insert_sorted]; [done|].
  intros Hl. destruct (Path_leb p q) eqn:Hpq.
  - cbn [is_sorted]. rewrite Hpq. exact Hl.
  - assert (Hrest : is_sorted l = true).
    { destruct l as [|r l]; [done|]. cbn [is_sorted] in Hl.
      by apply andb_prop in Hl as [_ ?]. }
    specialize (IH Hrest). destruct l as [|r l]; cbn [insert_sorted] in *.
    + cbn [is_sorted]. by rewrite (Path_leb_total _ _ Hpq).
    + destruct (Path_leb p r); cbn [is_sorted] in *.
      * by rewrite (Path_leb_total _ _ Hpq), IH.
      * apply andb_prop in Hl as [-> _]. exact IH.
Qed.

Lemma sorted_is_sorted (l : list Path) : is_sorted (sorted l) = true.
Proof.
  unfold sorted. induction l as [|p l IH]; cbn [foldr]; [done|].
  by apply insert_sorted_is_sorted.
Qed.

(** X12.  [find_workspaces] on a directory it can list returns, in
    sorted order and without touching anything, exactly the entries
    that are directories, whose name does not start with a dot, and
    that hold a [repos] directory.  On a directory it cannot list, the
    error escapes. *)
Theorem find_workspaces_spec (base_path : Path) (s : state E) :
  (forall items,
     path_iterdir base_path (fs s) = inr items ->
     exists found,
       find_workspaces base_path s = (Ret found, s)
       /\ is_sorted found = true
       /\ forall item,
            In item found
            <-> In item items
                /\ path_is_dir item (fs s) = true
                /\ Str.startswith "." (Path_name item) = false
                /\ path_is_dir (item // "repos") (fs s) = true)
  /\ (forall e,
        path_iterdir base_path (fs s) = inl e ->
        find_workspaces base_path s = (Raise e, s)).
Proof.
  unfold find_workspaces. split.
  - intros items Hiter. eexists. rewrite (bind_fs_read _ _ _ _ Hiter). run.
    split; [reflexivity|]. split; [apply sorted_is_sorted|].
    intros item. rewrite sorted_In, filter_In. unfold is_workspace_item.
    rewrite !andb_true_iff, negb_true_iff. tauto.
  - intros e Hiter. unfold bind at 1, fs_read. rewrite Hiter. reflexivity.
Qed.

Lemma check_repo_calls (repo_path : Path) (fetch : bool) (s s' : state E) (st : status) :
  check_repo repo_path fetch s = (Ret st, s') ->
  calls s' = calls s ++ (if path_exists (repo_path // ".git") (fs s)
                         then git_calls repo_path fetch else []).
Proof.
  destruct (path_exists (repo_path // ".git") (fs s)) eqn:Hgit.
  - pose proof (check_repo_eq repo_path fetch s Hgit) as Hform. cbv zeta in Hform.
    rewrite Hform. intros [= _ <-]. unfold git_calls. rewrite !git_query_calls.
    destruct fetch; rewrite ?git_query_calls, <- ?app_assoc; reflexivity.
  - unfold check_repo. rewrite bind_gets, Hgit. intros [= _ <-]. by rewrite app_nil_r.
Qed.

(** One turn of the loop: it returns, it moves one counter by one or
    none, and what it runs is the git queries of this repository or
    nothing. *)
Lemma check_workspace_repo_summary (fetch : bool) (repo : Path) (counts : nat * nat)
    (s : state E) :
  exists counts' s',
    check_workspace_repo fetch repo counts s = (Ret counts', s')
    /\ (counts' = counts \/ counts' = (S counts.1, counts.2)
        \/ counts' = (counts.1, S counts.2))
    /\ (calls s' = calls s \/ calls s' = calls s ++ git_calls repo fetch).
Proof.
  destruct (path_is_dir repo (fs s)) eqn:Hdir.
  2:{ exists counts, s. unfold check_workspace_repo. rewrite bind_gets, Hdir.
      split; [reflexivity|]. split; by left. }
  destruct (check_repo_returns repo fetch s) as (st & s1 & Hrun & Hrepo).
  pose proof (check_repo_calls _ _ _ _ _ Hrun) as Hcalls.
  destruct (path_exists (repo // ".git") (fs s)) eqn:Hgit.
  - eexists _, _. split;
      [exact (check_workspace_repo_eq fetch repo counts s st s1 Hdir Hrun Hrepo)|].
    split; [|right; exact Hcalls].
    destruct (Str.truthy (uncommitted st) || Str.truthy (outgoing st)
              || Str.truthy (incoming st)); auto.
  - exists counts, s1. unfold check_workspace_repo.
    rewrite bind_gets, Hdir. cbn [negb]. rewrite (bind_eq _ _ _ _ _ Hrun), Hrepo.
    split; [reflexivity|]. split; [by left|]. left. by rewrite Hcalls, app_nil_r.
Qed.

(** X13.  The loop over the repositories of a workspace always returns
    its counters, whatever git does: no failure of git ends it.  Each
    entry moves at most one counter by one.  The only programs it runs
    are the git queries of [check_repo] in the listed repositories, and
    without the fetch flag none of them is a fetch. *)
Theorem check_workspace_loop_summary (fetch : bool) (repos : list Path)
    (counts : nat * nat) (s : state E) :
  exists counts' s' ran,
    check_workspace_loop fetch repos counts s = (Ret counts', s')
    /\ counts.1 <= counts'.1 /\ counts.2 <= counts'.2
    /\ counts'.1 + counts'.2 <= counts.1 + counts.2 + length repos
    /\ calls s' = calls s ++ ran
    /\ (forall c, In c ran -> exists repo, In repo repos /\ In c (git_calls repo fetch))
    /\ (fetch = false -> forall c, In c ran -> argv c <> ["git"; "fetch"; "--quiet"]).
Proof.
  revert counts s. induction repos as [|repo repos IH]; intros counts s.
  - exists counts, s, []. cbn [check_workspace_loop length].
    split; [reflexivity|]. rewrite app_nil_r. repeat split; try lia; by intros c [].
  - destruct (check_workspace_repo_summary fetch repo counts s)
      as (c1 & s1 & Hrun & Hc1 & Hcalls1).
    destruct (IH c1 s1) as (c2 & s2 & ran & Hloop & Hl1 & Hl2 & Hsum & Hcalls2 & Hran & Hnf).
    assert (Hhere : exists ran1, calls s1 = calls s ++ ran1
                                 /\ forall c, In c ran1 -> In c (git_calls repo fetch)).
    { destruct Hcalls1 as [->| ->]; [exists []|eexists; split; [reflexivity|done]].
      split; [by rewrite app_nil_r|by intros c []]. }
    destruct Hhere as (ran1 & Hs1 & Hran1).
    exists c2, s2, (ran1 ++ ran). cbn [check_workspace_loop length].
    rewrite (bind_eq _ _ _ _ _ Hrun). split; [exact Hloop|].
    assert (Hfetch : fetch = false -> forall c, In c (git_calls repo fetch) ->
                                                argv c <> ["git"; "fetch"; "--quiet"]).
    { intros -> c. cbn. intros [<-|[<-|[<-|[]]]]; done. }
    destruct Hc1 as [->|[->| ->]]; cbn [fst snd] in *;
      (split; [lia|]); (split; [lia|]); (split; [lia|]);
      (split; [by rewrite Hcalls2, Hs1, app_assoc|]);
      (split;
         [intros c [Hin|Hin]%in_app_or;
            [exists repo; split; [by left|by apply Hran1]
            |destruct (Hran c Hin) as (r & Hr & Hc); exists r; split; [by right|done]]
         |intros Hf c [Hin|Hin]%in_app_or; [by apply Hfetch, Hran1|by apply Hnf]]).
Qed.

(** *** Setup on a workspace that is set up *)

Lemma walk_follow_found_nofollow (fuel : nat) (f : filesystem)
    (cur todo k : location) (n : node) :
  walk fuel f true cur todo = Found k n ->
  exists k' n', walk fuel f false cur todo = Found k' n'.
Proof.
  revert cur todo. induction fuel as [|fuel IH]; intros cur todo;
    destruct todo as [|c rest]; cbn [walk]; try done.
  - intros _. by eexists _, _.
  - intros _. by eexists _, _.
  - destruct (String.eqb c ".."); [apply IH|].
    destruct (f !! (cur ++ [c])) as [[content| |t]|] eqn:Hk.
    + destruct rest; [|done]. intros _. by eexists _, _.
    + apply IH.
    + destruct rest; [intros _; by eexists _, _|apply IH].
    + destruct rest; done.
Qed.

(** [mkdir(exist_ok=True)] on a directory that is there does nothing. *)
Lemma path_mkdir_exists (p : Path) (f : filesystem) :
  path_is_dir p f = true -> path_mkdir true p f = inr f.
Proof.
  intros Hdir. unfold path_mkdir, os_mkdir. rewrite Hdir.
  unfold path_is_dir, locate in *.
  destruct (walk walk_fuel f true _ (parts p)) as [k n|k|e] eqn:Hw; try done.
  destruct (walk_follow_found_nofollow _ _ _ _ _ _ Hw) as (k' & n' & ->).
  reflexivity.
Qed.

Lemma setup_claude_symlinks_in_place (workspace_path : Path) (s : state E) :
  path_exists (Path_of ".claude") (fs s) = false \/ claude_in_place workspace_path (fs s) ->
  setup_claude_symlinks workspace_path s
  = (Ret tt,
     printed (if path_exists (Path_of ".claude") (fs s) then []
              else ["Warning: Parent .claude directory not found, skipping symlink setup"])
       s).
Proof.
  intros Hplace. unfold setup_claude_symlinks. rewrite bind_gets.
  destruct (path_exists (Path_of ".claude") (fs s)) eqn:Hparent; cbn [negb];
    [|reflexivity].
  destruct Hplace as [|(Hwc & Hag & Hsk & Hac & Hsc & Hset)]; [done|].
  rewrite (bind_fs_do _ _ _ _ (path_mkdir_exists _ _ Hwc)), with_fs_same.
  rewrite (bind_fs_do _ _ _ _ (path_mkdir_exists _ _ Hag)), with_fs_same.
  rewrite (bind_fs_do _ _ _ _ (path_mkdir_exists _ _ Hsk)), with_fs_same.
  rewrite !bind_gets.
  assert (Hskip : forall core shared : bool,
            core = true \/ shared = false -> negb core && shared = false).
  { intros core shared [-> | ->]; [done|by destruct core]. }
  rewrite (Hskip _ _ Hac), bind_ret, !bind_gets, (Hskip _ _ Hsc), bind_ret.
  rewrite bind_gets, Hset. cbn [negb]. by rewrite printed_nil.
Qed.

Lemma setup_repos_in_place (workspace_path : Path) (repos : list repo_entry)
    (s : state E) :
  (forall repo, In repo repos ->
     exists p, repo_path repo = Some p
               /\ path_exists (joinpath workspace_path (Path_of p)) (fs s)
                  || path_is_symlink (joinpath workspace_path (Path_of p)) (fs s) = true) ->
  for_each repos (setup_repo workspace_path) s
  = (Ret tt, printed (map already_line repos) s).
Proof.
  revert s. induction repos as [|repo repos IH]; intros s Hall; cbn [for_each map].
  - by rewrite printed_nil.
  - destruct (Hall repo (or_introl eq_refl)) as (p & Hp & Hthere).
    assert (Hone : setup_repo workspace_path repo s
                   = (Ret tt, printed [already_line repo] s)).
    { unfold setup_repo, already_line. rewrite Hp. run. rewrite Hthere. reflexivity. }
    rewrite (bind_eq _ _ _ _ _ Hone), IH, printed_printed; [reflexivity|].
    intros repo' Hin. apply Hall. by right.
Qed.

(** Setup where everything it makes is there. *)
Lemma setup_in_place_eq (workspace text : string) (config : config)
    (repos : list repo_entry) (s : state E) :
  let workspace_path := Path_of workspace in
  path_exists workspace_path (fs s) = true ->
  read_file (workspace_path // "workspace.toml") (fs s) = inr text ->
  tomllib_load E text = Some config ->
  cfg_repos config = Some repos ->
  path_is_dir (workspace_path // "repos") (fs s) = true ->
  path_exists (workspace_path // "plans") (fs s) = true ->
  path_exists (workspace_path // "CLAUDE.md") (fs s) = true ->
  (path_exists (Path_of ".claude") (fs s) = false
   \/ claude_in_place workspace_path (fs s)) ->
  (forall repo, In repo repos ->
     exists p, repo_path repo = Some p
               /\ path_exists (joinpath workspace_path (Path_of p)) (fs s)
                  || path_is_symlink (joinpath workspace_path (Path_of p)) (fs s) = true) ->
  cmd_setup workspace s
  = (Ret tt,
     printed
       ([Str.nl +:+ "Setting up .claude symlinks..."]
        ++ (if path_exists (Path_of ".claude") (fs s) then []
            else ["Warning: Parent .claude directory not found, skipping symlink setup"])
        ++ [Str.nl +:+ "Setting up repositories..."]
        ++ map already_line repos
        ++ [Str.nl +:+ "Workspace '" +:+ workspace +:+ "' is ready!"])
       s).
Proof.
  intros workspace_path Hws Hread Hload Hrepos Hdir Hplans Hmd Hclaude Htargets.
  unfold cmd_setup. fold workspace_path.
  rewrite bind_gets, Hws. cbn [negb].
  rewrite bind_gets, (read_file_exists _ _ _ Hread). cbn [negb].
  rewrite (bind_eq _ _ _ _ _ (load_toml_eq _ _ _ _ Hread Hload)), Hrepos.
  rewrite (bind_fs_do _ _ _ _ (path_mkdir_exists _ _ Hdir)), with_fs_same.
  rewrite bind_gets, Hplans. cbn [negb]. rewrite bind_ret.
  rewrite bind_gets, Hmd. cbn [negb]. rewrite bind_ret, bind_print.
  match goal with
  | |- bind (setup_claude_symlinks _) _ ?st = _ =>
      rewrite (bind_eq _ _ _ _ _ (setup_claude_symlinks_in_place workspace_path st Hclaude))
  end.
  cbn [fs printed]. rewrite bind_print.
  match goal with
  | |- bind (for_each _ _) _ ?st = _ =>
      rewrite (bind_eq _ _ _ _ _ (setup_repos_in_place workspace_path repos st Htargets))
  end.
  rewrite print_eq, !printed_printed, <- ?app_assoc. reflexivity.
Qed.

(** X14.  Setup on a workspace where everything it makes is there: the
    [repos] and [plans] directories, [CLAUDE.md], the [.claude]
    scaffolding (or no parent [.claude] at all), and the target of
    every entry.  It then writes nothing and runs nothing: it prints
    its headings, the already-exists notice of every entry in manifest
    order, and the closing line. *)
Theorem setup_in_place (workspace text : string) (config : config)
    (repos : list repo_entry) (s : state E) :
  let workspace_path := Path_of workspace in
  path_exists workspace_path (fs s) = true ->
  read_file (workspace_path // "workspace.toml") (fs s) = inr text ->
  tomllib_load E text = Some config ->
  cfg_repos config = Some repos ->
  path_is_dir (workspace_path // "repos") (fs s) = true ->
  path_exists (workspace_path // "plans") (fs s) = true ->
  path_exists (workspace_path // "CLAUDE.md") (fs s) = true ->
  (path_exists (Path_of ".claude") (fs s) = false
   \/ claude_in_place workspace_path (fs s)) ->
  (forall repo, In repo repos ->
     exists p, repo_path repo = Some p
               /\ path_exists (joinpath workspace_path (Path_of p)) (fs s)
                  || path_is_symlink (joinpath workspace_path (Path_of p)) (fs s) = true) ->
  cmd_setup workspace s
  = (Ret tt,
     printed
       ([Str.nl +:+ "Setting up .claude symlinks..."]
        ++ (if path_exists (Path_of ".claude") (fs s) then []
            else ["Warning: Parent .claude directory not found, skipping symlink setup"])
        ++ [Str.nl +:+ "Setting up repositories..."]
        ++ map already_line repos
        ++ [Str.nl +:+ "Workspace '" +:+ workspace +:+ "' is ready!"])
       s).
Proof. exact (setup_in_place_eq workspace text config repos s). Qed.



(** One turn of the loop only adds lines to the output, and counts the
    entry at most once. *)
Lemma check_workspace_repo_report (fetch : bool) (repo : Path) (counts : nat * nat)
    (s : state E) :
  exists counts' s' report,
    check_workspace_repo fetch repo counts s = (Ret counts', s')
    /\ counts'.1 + counts'.2 <= counts.1 + counts.2 + 1
    /\ out s' = out s ++ report.
Proof.
  destruct (path_is_dir repo (fs s)) eqn:Hdir.
  2:{ exists counts, s, []. unfold check_workspace_repo. rewrite bind_gets, Hdir.
      split; [reflexivity|]. split; [lia|by rewrite app_nil_r]. }
  destruct (check_repo_returns repo fetch s) as (st & s1 & Hrun & Hrepo).
  pose proof (check_repo_out _ _ _ _ _ Hrun) as Hout.
  destruct (is_git_repo st) eqn:Hst.
  - eexists _, _, _. split;
      [exact (check_workspace_repo_eq fetch repo counts s st s1 Hdir Hrun Hst)|].
    split; [|cbn [out printed]; rewrite Hout; reflexivity].
    destruct (Str.truthy (uncommitted st) || Str.truthy (outgoing st)
              || Str.truthy (incoming st)); cbn [fst snd]; lia.
  - exists counts, s1, []. unfold check_workspace_repo.
    rewrite bind_gets, Hdir. cbn [negb]. rewrite (bind_eq _ _ _ _ _ Hrun), Hst.
    split; [reflexivity|]. split; [lia|by rewrite Hout, app_nil_r].
Qed.

Lemma check_workspace_loop_report (fetch : bool) (repos : list Path)
    (counts : nat * nat) (s : state E) :
  exists counts' s' report,
    check_workspace_loop fetch repos counts s = (Ret counts', s')
    /\ counts'.1 + counts'.2 <= counts.1 + counts.2 + length repos
    /\ out s' = out s ++ report.
Proof.
  revert counts s. induction repos as [|repo repos IH]; intros counts s.
  - exists counts, s, []. cbn [check_workspace_loop length].
    split; [reflexivity|]. split; [lia|by rewrite app_nil_r].
  - destruct (check_workspace_repo_report fetch repo counts s)
      as (c1 & s1 & r1 & Hrun & Hc1 & Hout1).
    destruct (IH c1 s1) as (c2 & s2 & r2 & Hloop & Hc2 & Hout2).
    exists c2, s2, (r1 ++ r2). cbn [check_workspace_loop length].
    rewrite (bind_eq _ _ _ _ _ Hrun). split; [exact Hloop|].
    split; [lia|by rewrite Hout2, Hout1, app_assoc].
Qed.

Lemma insert_sorted_length (p : Path) (l : list Path) :
  length (insert_sorted p l) = S (length l).
Proof.
  induction l as [|q l IH]; cbn [insert_sorted length]; [reflexivity|].
  destruct (Path_leb p q); cbn [length]; by rewrite ?IH.
Qed.

Lemma sorted_length (l : list Path) : length (sorted l) = length l.
Proof.
  unfold sorted. induction l as [|p l IH]; cbn [foldr length]; [reflexivity|].
  by rewrite insert_sorted_length, IH.
Qed.

Lemma path_is_dir_exists (p : Path) (f : filesystem) :
  path_is_dir p f = true -> path_exists p f = true.
Proof.
  unfold path_is_dir, path_exists. destruct (locate true p f) as [k n|k|e]; [|intros H; exact H..].
  reflexivity.
Qed.

(** X17.  The check of one workspace, named on the command line or the
    current directory, whose [repos/] is a directory, always comes back
    normally, whatever its repositories are and whatever git does.  What
    it prints is the header, the title of the workspace, the reports of
    the repositories, a blank line and the totals; the two totals count
    each entry of [repos/] at most once. *)
Theorem check_one_workspace (workspace : option string) (fetch : bool) (s : state E) :
  let here := path_resolve (mkPath true (getcwd E)) (fs s) in
  let ws_path := match truthy_get workspace with
                 | Some name => here // name
                 | None => here
                 end in
  path_exists ws_path (fs s) = true ->
  path_is_dir (ws_path // "repos") (fs s) = true ->
  exists items clean dirty report s',
    path_iterdir (ws_path // "repos") (fs s) = inr items
    /\ cmd_check workspace fetch s = (Ret tt, s')
    /\ clean + dirty <= length items
    /\ out s'
       = out s ++ check_header fetch
         ++ [Colors.BLUE +:+ "=== Workspace: " +:+ Path_name ws_path +:+ " ==="
             +:+ Colors.RESET]
         ++ report
         ++ [""; Colors.GREEN +:+ "Clean repos:" +:+ Colors.RESET +:+ " "
                 +:+ Str.of_nat clean +:+ " | " +:+ Colors.RED +:+ "Repos with changes:"
                 +:+ Colors.RESET +:+ " " +:+ Str.of_nat dirty].
Proof.
  intros here ws_path Hthere Hrepos.
  assert (Hiter : exists items, path_iterdir (ws_path // "repos") (fs s) = inr items).
  { unfold path_iterdir. unfold path_is_dir in Hrepos.
    destruct (locate true (ws_path // "repos") (fs s)) as [k [| |]|k|e];
      try discriminate Hrepos.
    eexists. reflexivity. }
  destruct Hiter as [items Hiter].
  destruct (check_workspace_loop_report fetch (sorted items) (0, 0)%nat
              (printed (check_header fetch
                        ++ [Colors.BLUE +:+ "=== Workspace: " +:+ Path_name ws_path
                            +:+ " ===" +:+ Colors.RESET]) s))
    as ([clean dirty] & s1 & report & Hloop & Hcount & Hout).
  rewrite sorted_length in Hcount. cbn [fst snd] in Hcount.
  assert (Hws : forall st, st = printed (check_header fetch) s ->
    check_workspace ws_path fetch st
    = (Ret (clean, dirty), printed [""] s1)).
  { intros st ->. unfold check_workspace. rewrite bind_gets. cbn [fs printed].
    rewrite (path_is_dir_exists _ _ Hrepos). cbn [negb].
    rewrite ?bind_bind, bind_print, printed_printed.
    rewrite (bind_fs_read _ _ _ items) by exact Hiter.
    rewrite (bind_eq _ _ _ _ _ Hloop). rewrite ?bind_bind, bind_print. reflexivity. }
  exists items, clean, dirty, report.
  eexists. split; [exact Hiter|].
  unfold cmd_check. rewrite bind_gets. fold here. rewrite bind_gets.
  rewrite check_header_eq.
  assert (Hbody :
    match truthy_get workspace with
    | Some name =>
        let ws_path := here // name in
        bind (gets (path_exists ws_path))
          (fun found =>
             if negb found then
               bind (print (Colors.RED +:+ "Workspace not found: " +:+ name
                            +:+ Colors.RESET)) (fun _ => sys_exit 1)
             else
               bind (gets (path_is_dir (ws_path // "repos")))
                 (fun has_repos =>
                    if negb has_repos then
                      bind (print (Colors.RED +:+ "Not a workspace (no repos/ folder): "
                                   +:+ name +:+ Colors.RESET)) (fun _ => sys_exit 1)
                    else check_workspace ws_path fetch))
    | None =>
        if path_is_dir (here // "repos") (fs s) then check_workspace here fetch
        else
          bind (find_workspaces here)
            (fun workspaces =>
               match workspaces with
               | [] => bind (print "No workspaces found") (fun _ => sys_exit 0)
               | _ => check_all fetch workspaces (0, 0)%nat
               end)
    end (printed (check_header fetch) s)
    = (Ret (clean, dirty), printed [""] s1)).
  { subst ws_path. destruct (truthy_get workspace) as [name|].
    - cbv zeta. rewrite bind_gets. cbn [fs printed]. rewrite Hthere. cbn [negb].
      rewrite bind_gets. cbn [fs printed]. rewrite Hrepos. cbn [negb].
      apply Hws. reflexivity.
    - rewrite Hrepos. apply Hws. reflexivity. }
  rewrite (bind_eq _ _ _ _ _ Hbody). rewrite print_eq. split; [reflexivity|].
  split; [exact Hcount|].
  cbn [out printed fst snd]. rewrite Hout. cbn [out printed].
  rewrite <- !app_assoc. reflexivity.
Qed.

(** *** Setup, run again *)












(** *** The programs the commands run *)

Lemma runs_only_same (P : call -> Prop) {A : Type} (m : M A) :
  (forall s r s', m s = (r, s') -> calls s' = calls s) -> runs_only P m.
Proof.
  intros Hm s r s' Hrun. exists []. rewrite app_nil_r. split; [exact (Hm _ _ _ Hrun)|].
  constructor.
Qed.

Lemma runs_only_ret (P : call -> Prop) {A : Type} (a : A) : runs_only P (ret a).
Proof. apply runs_only_same. by intros s r s' [= _ <-]. Qed.

Lemma runs_only_exit (P : call -> Prop) {A : Type} (c : Z) : runs_only P (@sys_exit A c).
Proof. apply runs_only_same. by intros s r s' [= _ <-]. Qed.

Lemma runs_only_raise (P : call -> Prop) {A : Type} (e : exn) : runs_only P (@raise A e).
Proof. apply runs_only_same. by intros s r s' [= _ <-]. Qed.

Lemma runs_only_print (P : call -> Prop) (line : string) : runs_only P (print line).
Proof. apply runs_only_same. by intros s r s' [= _ <-]. Qed.

Lemma runs_only_gets (P : call -> Prop) {A : Type} (f : filesystem -> A) :
  runs_only P (gets f).
Proof. apply runs_only_same. by intros s r s' [= _ <-]. Qed.

Lemma runs_only_fs_read (P : call -> Prop) {A : Type} (op : filesystem -> exn + A) :
  runs_only P (fs_read op).
Proof.
  apply runs_only_same. intros s r s'. unfold fs_read.
  destruct (op (fs s)); by intros [= _ <-].
Qed.

Lemma runs_only_attempt (P : call -> Prop) {A : Type} (r : exn + A) :
  runs_only P (attempt r).
Proof.
  apply runs_only_same. intros s o s'. unfold attempt. destruct r; by intros [= _ <-].
Qed.

Lemma runs_only_fs_do (P : call -> Prop) (op : filesystem -> exn + filesystem) :
  runs_only P (fs_do op).
Proof.
  apply runs_only_same. intros s r s'. unfold fs_do.
  destruct (op (fs s)); by intros [= _ <-].
Qed.

Lemma runs_only_run_process (P : call -> Prop) (args : list string) (dir : option Path) :
  P (mkCall args dir) -> runs_only P (run_process args dir).
Proof.
  intros HP s r s'. unfold run_process.
  destruct (subprocess_run E args dir (fs s) (world s)) as [[c f'] w'].
  intros [= _ <-]. eexists. split; [reflexivity|]. by constructor.
Qed.

Lemma runs_only_bind (P : call -> Prop) {A B : Type} (m : M A) (k : A -> M B) :
  runs_only P m -> (forall a, runs_only P (k a)) -> runs_only P (bind m k).
Proof.
  intros Hm Hk s r s'. unfold bind. destruct (m s) as [[a|c|e] s1] eqn:Hrun.
  - intros Hrest. destruct (Hm _ _ _ Hrun) as (ran1 & H1 & HP1).
    destruct (Hk _ _ _ _ Hrest) as (ran2 & H2 & HP2).
    exists (ran1 ++ ran2). rewrite H2, H1, app_assoc. split; [reflexivity|].
    apply Forall_app. by split.
  - intros [= _ <-]. exact (Hm _ _ _ Hrun).
  - intros [= _ <-]. exact (Hm _ _ _ Hrun).
Qed.

Lemma runs_only_try_except (P : call -> Prop) {A : Type} (m : M A)
    (h : exn -> option (M A)) :
  runs_only P m -> (forall e k, h e = Some k -> runs_only P k) ->
  runs_only P (try_except m h).
Proof.
  intros Hm Hh s r s'. unfold try_except. destruct (m s) as [[a|c|e] s1] eqn:Hrun.
  - intros [= <- <-]. exact (Hm _ _ _ Hrun).
  - intros [= <- <-]. exact (Hm _ _ _ Hrun).
  - destruct (h e) as [k|] eqn:He.
    + intros Hrest. destruct (Hm _ _ _ Hrun) as (ran1 & H1 & HP1).
      destruct (Hh _ _ He _ _ _ Hrest) as (ran2 & H2 & HP2).
      exists (ran1 ++ ran2). rewrite H2, H1, app_assoc. split; [reflexivity|].
      apply Forall_app. by split.
    + intros [= <- <-]. exact (Hm _ _ _ Hrun).
Qed.

Lemma runs_only_for_each (P : call -> Prop) {A : Type} (l : list A) (body : A -> M unit) :
  (forall x, runs_only P (body x)) -> runs_only P (for_each l body).
Proof.
  intros Hbody. induction l as [|x l IH]; cbn [for_each].
  - apply runs_only_ret.
  - apply runs_only_bind; [apply Hbody|intros _; exact IH].
Qed.

Lemma runs_only_load_toml (P : call -> Prop) (p : Path) : runs_only P (load_toml p).
Proof.
  unfold load_toml. apply runs_only_bind; [apply runs_only_fs_read|].
  intros text. destruct (tomllib_load E text); [apply runs_only_ret|apply runs_only_raise].
Qed.

Lemma no_call_same {A : Type} (m : M A) (s s' : state E) (r : outcome A) :
  runs_only no_call m -> m s = (r, s') -> calls s' = calls s.
Proof.
  intros Hm Hrun. destruct (Hm _ _ _ Hrun) as ([|c ran] & Hcalls & HP).
  - by rewrite app_nil_r in Hcalls.
  - by apply Forall_cons in HP as [[] _].
Qed.

(** The steps that run no program, one constructor of the command at a
    time. *)
Ltac runs_step :=
  first
    [ apply runs_only_ret | apply runs_only_exit | apply runs_only_raise
    | apply runs_only_print | apply runs_only_gets | apply runs_only_fs_read
    | apply runs_only_fs_do | apply runs_only_load_toml | apply runs_only_attempt
    | apply runs_only_for_each; intros ?
    | apply runs_only_bind; [|intros ?]
    | progress cbv beta iota zeta
    | match goal with
      | |- runs_only _ (if ?b then _ else _) => destruct b
      | |- runs_only _ (match ?x with _ => _ end) => destruct x
      end ].

Ltac runs := repeat runs_step.

Lemma export_items_runs_nothing (P : call -> Prop) (dest_dir : Path) (items : list Path)
    (copied : nat) :
  runs_only P (export_items dest_dir items copied).
Proof.
  revert copied. induction items as [|item rest IH]; intros copied; cbn [export_items].
  - apply runs_only_ret.
  - apply runs_only_bind; [apply runs_only_gets|intros is_symlink].
    destruct (negb is_symlink); [|apply IH].
    cbv zeta. apply runs_only_bind; [apply runs_only_gets|intros is_dir].
    apply runs_only_bind; [|intros _; apply IH].
    destruct is_dir; runs.
Qed.

(** X18.  Export runs no program: however it ends, the record of the
    programs run is the one it started with. *)
Theorem export_runs_no_program (workspace destination : string) (s s' : state E)
    (r : outcome unit) :
  cmd_export workspace destination s = (r, s') -> calls s' = calls s.
Proof.
  apply no_call_same. unfold cmd_export.
  apply runs_only_bind.
  - unfold export_files.
    repeat first [apply export_items_runs_nothing | runs_step].
  - intros paths. unfold export_note.
    apply runs_only_bind; [apply runs_only_load_toml|intros config].
    apply runs_only_bind; [|intros _; runs].
    cbv zeta. destruct (List.filter has_source (default [] (cfg_repos config))); [runs|].
    apply runs_only_bind; [runs|intros _].
    apply runs_only_bind; [runs|intros _].
    apply runs_only_for_each. intros entry. unfold source_entry_line.
    destruct (repo_path entry); runs.
Qed.

Lemma setup_claude_symlinks_runs_nothing (P : call -> Prop) (workspace_path : Path) :
  runs_only P (setup_claude_symlinks workspace_path).
Proof. unfold setup_claude_symlinks. runs. Qed.

Lemma setup_repo_runs_clones (workspace_path : Path) (repo : repo_entry) :
  runs_only is_clone (setup_repo workspace_path repo).
Proof.
  unfold setup_repo. destruct (repo_path repo) as [p|]; [|apply runs_only_raise].
  cbv zeta. apply runs_only_bind; [apply runs_only_gets|intros there].
  apply runs_only_bind; [apply runs_only_gets|intros linked].
  destruct (there || linked); [apply runs_only_print|].
  destruct (truthy_get (repo_source repo)) as [source|]; [runs|].
  destruct (truthy_get (repo_remote repo)) as [remote|]; [|apply runs_only_print].
  apply runs_only_bind.
  - apply runs_only_run_process. by eexists _, _.
  - intros [rc o e|msg]; [|apply runs_only_raise].
    destruct rc; [apply runs_only_print| |];
      (destruct (Str.utf8 e); [apply runs_only_print|apply runs_only_raise]).
Qed.

(** X19.  The only programs Setup runs are [git clone]s, started in the
    current directory: however it ends, what it adds to the record of
    the programs run is a list of such clones. *)
Theorem setup_runs_only_clones (workspace : string) (s s' : state E) (r : outcome unit) :
  cmd_setup workspace s = (r, s') ->
  exists ran, calls s' = calls s ++ ran /\ Forall is_clone ran.
Proof.
  revert s r s'. change (runs_only is_clone (cmd_setup workspace)).
  unfold cmd_setup.
  repeat first [ apply setup_claude_symlinks_runs_nothing
               | apply runs_only_for_each; intros ?; apply setup_repo_runs_clones
               | runs_step ].
Qed.

Lemma link_note_runs_nothing (P : call -> Prop) (workspaces_dir aibrief_dir note : Path) :
  runs_only P (link_note workspaces_dir aibrief_dir note).
Proof.
  unfold link_note. apply runs_only_bind; [apply runs_only_fs_read|intros text].
  destruct (truthy_get (note_workspace (Str.lines text))) as [workspace|];
    [|apply runs_only_ret].
  cbv zeta. apply runs_only_bind; [unfold link_to_workspace; runs|intros _].
  unfold link_to_aibrief. apply runs_only_bind; [apply runs_only_gets|intros brief].
  destruct brief; [|apply runs_only_ret].
  apply runs_only_bind; [apply runs_only_gets|intros old].
  apply runs_only_bind; [destruct old; runs|intros _].
  apply runs_only_try_except; [runs|].
  intros e k. destruct (is_OSError e); [|discriminate]. intros [= <-]. apply runs_only_ret.
Qed.

(** X20.  Linking runs at most one program, the search of the vault for
    the notes that name a workspace; it runs none when the vault is
    missing or the aibrief folder cannot be made. *)
Theorem link_runs_one_search (s s' : state E) (r : outcome unit) :
  cmd_link s = (r, s') ->
  calls s' = calls s \/ calls s' = calls s ++ [vault_search].
Proof.
  unfold cmd_link. rewrite (bind_attempt _ _ _ _ vault_expanduser).
  cbv zeta. rewrite !bind_gets.
  destruct (path_exists (Path_of "../Notes/notes") (fs s)); cbn [negb].
  2:{ rewrite bind_print. intros [= _ <-]. by left. }
  rewrite bind_gets.
  set (front := if path_exists (home E // "Dropbox/Apps") (fs s) then _ else _).
  assert (Hfront : runs_only no_call front) by (unfold front; runs).
  unfold bind at 1. destruct (front s) as [[[]|c|e] s1] eqn:Hf.
  2,3: intros [= _ <-]; left; exact (no_call_same _ _ _ _ Hfront Hf).
  pose proof (no_call_same _ _ _ _ Hfront Hf) as H1.
  unfold bind at 1, run_process at 1.
  destruct (subprocess_run E _ None (fs s1) (world s1)) as [[c f'] w'].
  intros Hrest. right.
  assert (Hk : runs_only no_call
    (match c with
     | Completed _ stdout _ =>
         for_each (map Path_of (List.filter Str.truthy
                                  (Str.split Str.nl (Str.strip stdout))))
           (link_note (path_resolve (Path_parent (script_file E)) (fs s))
              (home E // "Dropbox/Apps/work-journal-reviewer"))
     | NotStarted msg =>
         bind (print (Colors.RED +:+ "Error searching vault: " +:+ msg +:+ Colors.RESET))
           (fun _ => sys_exit 1)
     end)).
  { destruct c; [|runs]. apply runs_only_for_each. intros note.
    apply link_note_runs_nothing. }
  rewrite (no_call_same _ _ _ _ Hk Hrest). cbn [calls]. by rewrite H1.
Qed.

End Program.

(* ===================================================================== *)
(** ** The properties on the concrete environment *)
(* ===================================================================== *)

Lemma setup_without_repos_exits_demo :
  cmd_setup Demo.env "ws" (Demo.start (Demo.with_manifest Demo.description_only []))
  = (Exit 1, printed Demo.env ["Error: No 'repos' section found in workspace.toml"]
               (Demo.start (Demo.with_manifest Demo.description_only []))).
Proof.
  apply (setup_without_repos_exits Demo.env "ws" Demo.description_only
           (mkConfig None (Some "notes") None)); vm_compute; reflexivity.
Defined.



Lemma dirty_repo_reports_uncommitted_only_demo :
  let s := Demo.start Demo.checked in
  let s' := (check_repo Demo.env (Demo.repo "dirty") false s).2 in
  let st := mkStatus true "M README.md" "" "" in
  let counts := (0, 0)%nat in
  check_workspace_loop Demo.env false [Demo.repo "dirty"] counts s
  = check_workspace_loop Demo.env false [] (counts.1, S counts.2)
      (printed Demo.env
         ([Colors.CYAN +:+ Path_str (Demo.repo "dirty") +:+ Colors.RESET;
           "   Uncommitted changes:"]
          ++ map (colored Colors.YELLOW) (Str.split Str.nl (uncommitted st)))
         s')
  /\ out s' = out s.
Proof.
  intros s s' st counts.
  apply (dirty_repo_reports_uncommitted_only Demo.env false (Demo.repo "dirty") []
           counts s s' st);
    first [reflexivity | discriminate].
Defined.

Lemma clean_repo_reports_nothing_demo :
  let s := Demo.start Demo.checked in
  let s' := (check_repo Demo.env (Demo.repo "clean") true s).2 in
  let st := mkStatus true "" "" "" in
  let counts := (0, 0)%nat in
  check_workspace_loop Demo.env true [Demo.repo "clean"] counts s
  = check_workspace_loop Demo.env true [] (S counts.1, counts.2) s'
  /\ out s' = out s.
Proof.
  intros s s' st counts.
  apply (clean_repo_reports_nothing Demo.env true (Demo.repo "clean") []
           counts s s' st);
    reflexivity.
Defined.

Lemma git_failure_leaves_field_empty_demo :
  let s := Demo.start Demo.checked in
  let repo := Demo.repo "broken" in
  let q1 := git_query Demo.env repo ["status"; "--porcelain"] s in
  let s2 := (git_query Demo.env repo ["fetch"; "--quiet"] q1.2).2 in
  let q3 := git_query Demo.env repo ["log"; "@{u}.."; "--oneline"] s2 in
  let q4 := git_query Demo.env repo ["log"; "..@{u}"; "--oneline"] q3.2 in
  let st := mkStatus true (git_field q1.1) (git_field q3.1) (git_field q4.1) in
  (q1.1 = NotStarted "[Errno 13] Permission denied" /\ st = mkStatus true "" "" "")
  /\ check_repo Demo.env repo true s = (Ret st, q4.2)
  /\ calls q4.2 = calls s ++ git_calls repo true
  /\ out q4.2 = out s
  /\ check_workspace_loop Demo.env true [repo; Demo.repo "clean"] (0, 0)%nat s
     = check_workspace_loop Demo.env true [Demo.repo "clean"]
         (if has_issues st then (0, 1) else (1, 0))%nat
         (printed Demo.env (repo_report repo st) q4.2).
Proof.
  intros s repo q1 s2 q3 q4 st.
  split; [split; vm_compute; reflexivity|].
  apply (git_failure_leaves_field_empty Demo.env true repo [Demo.repo "clean"]
           (0, 0)%nat s); vm_compute; reflexivity.
Defined.

(** C8 as stated fails for a git that ends with an error after it has
    written to its standard output: the field is not left empty, it
    holds what git wrote, and the repository is counted as changed. *)
Lemma failed_git_output_is_kept :
  let s := @mkState Demo.noisy Demo.checked tt [] [] in
  let repo := Demo.repo "clean" in
  (git_query Demo.noisy repo ["status"; "--porcelain"] s).1
  = Completed 1 ("error: x" +:+ Str.nl) ""
  /\ (check_repo Demo.noisy repo false s).1 = Ret (mkStatus true "error: x" "" "")
  /\ (check_workspace_loop Demo.noisy false [repo] (0, 0)%nat s).1 = Ret (0, 1)%nat.
Proof. vm_compute. repeat split. Qed.


(** An equation [m s = (r, s')] where [s'] is the state [m s] ends in:
    the outcome is computed, the state is the same term. *)
Ltac run_eq :=
  match goal with
  | |- ?m = (?r, ?s') =>
      let H := fresh in
      assert (H : m.1 = r) by (vm_compute; reflexivity);
      rewrite (surjective_pairing m), H; reflexivity
  end.

Lemma export_reports_source_entries_demo :
  let s := Demo.start (Demo.with_manifest (Demo.manifest_text Demo.scenario) []) in
  let s1 := (export_files Demo.env "ws" "~/shared" s).2 in
  let config := Demo.manifest_config Demo.scenario in
  let export_path := mkPath true ["home"; "u"; "shared"] in
  let source_entries := List.filter has_source (default [] (cfg_repos config)) in
  cmd_export Demo.env "ws" "~/shared" s
  = (Ret tt,
     printed Demo.env
       ([Str.nl +:+ Colors.YELLOW +:+ "Note: This workspace has "
         +:+ Str.of_nat (length source_entries) +:+ " local source entries."
         +:+ Colors.RESET;
         "Recipients will need to update these paths in workspace.toml:"]
        ++ map source_line source_entries
        ++ [Str.nl +:+ Colors.GREEN +:+ "Export complete!" +:+ Colors.RESET;
            "To set up: cd " +:+ Path_str export_path +:+ " && ./workspace.py setup "
            +:+ "ws"])
       s1).
Proof.
  intros s s1 config export_path source_entries.
  apply (export_reports_source_entries Demo.env "ws" "~/shared"
           (Demo.manifest_text Demo.scenario) config export_path
           (Path_of "ws" // "workspace.toml") s s1).
  - run_eq.
  - vm_compute; reflexivity.
  - vm_compute; reflexivity.
  - intros H; vm_compute in H; discriminate H.
  - intros entry Hin; vm_compute in Hin; destruct Hin as [<-|[]]; discriminate.
Defined.

(** C7 as stated fails on two manifests that have an entry with a
    source key.  Where such an entry has no path, Export fails: the
    [KeyError] escapes after every copy has been made.  Where the source
    is the empty string, Export completes but prints no note: the entry
    is not listed. *)
Lemma export_note_needs_path_and_source :
  let f := Demo.with_manifest (Demo.manifest_text Demo.scenario) [] in
  let failed := cmd_export Demo.careless "ws" "~/shared" (@mkState Demo.careless f tt [] []) in
  let silent := cmd_export Demo.blanks "ws" "~/shared" (@mkState Demo.blanks f tt [] []) in
  (map repo_source (default [] (cfg_repos Demo.pathless)) = [Some "~/a"; Some "~/b"]
   /\ failed.1 = Raise (KeyError "path"))
  /\ (map repo_source (default [] (cfg_repos Demo.blank)) = [Some ""]
      /\ silent.1 = Ret tt
      /\ out silent.2
         = ["Exporting to: /home/u/shared"; "✓ Copied workspace.py";
            "⊘ No root CLAUDE.md found"; "⊘ No root README.md found";
            "✓ Created .claude/agents/ (empty)"; "✓ Created .claude/skills/ (empty)";
            "✓ Copied ws/workspace.toml";
            Str.nl +:+ Colors.GREEN +:+ "Export complete!" +:+ Colors.RESET;
            "To set up: cd /home/u/shared && ./workspace.py setup ws"]).
Proof. vm_compute. repeat split. Qed.




(** The whole command on the vault, twice: the link is made and
    reported, then reported as already there. *)
Example cmd_link_twice :
  let r1 := cmd_link Demo.env (Demo.start Demo.vault) in
  let r2 := cmd_link Demo.env (Demo.start (fs r1.2)) in
  out r1.2 = ["✓ demo → ../Notes/notes/demo.md"; "  + aibrief: demo.md (hard linked)"]
  /\ out r2.2 = ["✓ demo (already linked)"; "  + aibrief: demo.md (hard linked)"]
  /\ fs r1.2 !! (Demo.work ++ ["demo"; "journal.md"])
     = Some (Link (mkPath true (Demo.notes ++ ["demo.md"]))).
Proof. vm_compute. repeat split. Qed.


(** The careful git only adds. *)
Lemma careful_clone_adds : clone_adds Demo.careful.
Proof.
  intros remote target dir f w. cbn [subprocess_run Demo.careful Demo.careful_run].
  destruct (String.eqb remote "https://x/a.git"); cbn [andb fst snd]; [|done].
  case_bool_decide as Hk; cbn [andb fst snd]; [|done].
  case_bool_decide as Hgit; cbn [fst snd]; [|done].
  transitivity (<[Demo.work ++ parts (Path_of target) := Dir]> f).
  - by apply insert_subseteq.
  - apply insert_subseteq. rewrite lookup_insert_ne; [done|].
    intros Heq. apply (f_equal length) in Heq. rewrite !length_app in Heq.
    cbn in Heq. lia.
Qed.

Lemma setup_only_adds_demo :
  let s := @mkState Demo.careful
             (Demo.with_manifest (Demo.manifest_text Demo.scenario) []) tt [] [] in
  fs s ⊆ fs (cmd_setup Demo.careful "ws" s).2.
Proof.
  intros s.
  exact (setup_only_adds Demo.careful "ws" s (cmd_setup Demo.careful "ws" s).2
           (cmd_setup Demo.careful "ws" s).1 careful_clone_adds
           (surjective_pairing _)).
Defined.

Lemma setup_claude_symlinks_only_adds_demo :
  let s := Demo.start (<[Demo.work ++ [".claude"] := Dir]>
                         (Demo.with_manifest Demo.description_only [])) in
  fs s ⊆ fs (setup_claude_symlinks Demo.env (Path_of "ws") s).2.
Proof.
  intros s.
  exact (setup_claude_symlinks_only_adds Demo.env (Path_of "ws") s
           (setup_claude_symlinks Demo.env (Path_of "ws") s).2
           (setup_claude_symlinks Demo.env (Path_of "ws") s).1 (surjective_pairing _)).
Defined.


Lemma setup_entry_without_path_demo :
  let s := Demo.start (Demo.with_manifest Demo.description_only []) in
  let repo := mkRepo None (Some "~/local/b") None in
  let rest := [mkRepo (Some "repos/b") (Some "~/local/b") None] in
  repos_line repo = "- `unknown` - [description]"
  /\ for_each Demo.env (repo :: rest) (setup_repo Demo.env (Path_of "ws")) s
     = (Raise (KeyError "path"), s).
Proof.
  intros s repo rest.
  exact (setup_entry_without_path Demo.env (Path_of "ws") repo rest s eq_refl).
Defined.


Lemma link_before_the_notes_demo :
  let vault := Path_of "../Notes/notes" in
  let s := Demo.start (list_to_map Demo.base) in
  let found := list_to_map (Demo.base ++ [(["home"; "u"; "Notes"], Dir); (Demo.notes, Dir)]) in
  let offline := @mkState Demo.offline found tt [] [] in
  let quiet := @mkState Demo.quiet found tt [] [] in
  cmd_link Demo.env s
  = (Exit 1,
     printed Demo.env
       [Colors.RED +:+ "Vault not found: " +:+ Path_str vault +:+ Colors.RESET] s)
  /\ cmd_link Demo.offline offline
     = (Exit 1,
        printed Demo.offline
          [Colors.RED +:+ "Error searching vault: " +:+ "No such file or directory: 'grep'"
           +:+ Colors.RESET]
          (run_process Demo.offline ["grep"; "-rl"; "^workspace: "; Path_str vault] None
             offline).2)
  /\ cmd_link Demo.quiet quiet
     = (Ret tt,
        (run_process Demo.quiet ["grep"; "-rl"; "^workspace: "; Path_str vault] None
           quiet).2).
Proof.
  intros vault s found offline quiet. split; [|split].
  - apply (proj1 (link_before_the_notes Demo.env s)). reflexivity.
  - apply (proj1 (proj2 (link_before_the_notes Demo.offline offline) eq_refl eq_refl)
             "No such file or directory: 'grep'").
    reflexivity.
  - apply (proj2 (proj2 (link_before_the_notes Demo.quiet quiet) eq_refl eq_refl)
             1%Z "" ""); reflexivity.
Defined.

Lemma link_notes_not_linked_demo :
  let cr := String (ascii_of_nat 13) "" in
  let f := <[Demo.notes ++ ["plain.md"] := File ("A day." +:+ cr +:+ "No workspace: here.")]>
             Demo.vault in
  let s := Demo.start f in
  let here := mkPath true Demo.work in
  let brief := mkPath true Demo.brief in
  let rest := [Path_of "../Notes/notes/demo.md"] in
  for_each Demo.env (Path_of "../Notes/notes/none.md" :: rest)
    (link_note Demo.env here brief) s
  = (Raise FileNotFoundError, s)
  /\ for_each Demo.env (Path_of "../Notes/notes/plain.md" :: rest)
       (link_note Demo.env here brief) s
     = for_each Demo.env rest (link_note Demo.env here brief) s.
Proof.
  intros cr f s here brief rest. split.
  - apply (proj1 (link_notes_not_linked Demo.env here brief
                    (Path_of "../Notes/notes/none.md") rest s)); reflexivity.
  - apply (proj2 (link_notes_not_linked Demo.env here brief
                    (Path_of "../Notes/notes/plain.md") rest s)
             ("A day." +:+ cr +:+ "No workspace: here.")
             ("A day." +:+ Str.nl +:+ "No workspace: here."));
      [vm_compute; reflexivity..|].
    vm_compute. repeat constructor.
Defined.

Lemma link_to_aibrief_idempotent_demo :
  let s := Demo.start Demo.vault in
  let brief := mkPath true Demo.brief in
  let link := brief // "demo.md" in
  let note := Path_of "../Notes/notes/demo.md" in
  let kb := Demo.brief ++ ["demo.md"] in
  exists s1,
    (link_to_aibrief Demo.env "demo" brief link note s).1 = Ret tt
    /\ (link_to_aibrief Demo.env "demo" brief link note s).2 = s1
    /\ (forall k, k <> kb -> fs s1 !! k = fs s !! k)
    /\ (link_to_aibrief Demo.env "demo" brief link note s1).1 = Ret tt
    /\ fs (link_to_aibrief Demo.env "demo" brief link note s1).2 = fs s1.
Proof.
  intros s brief link note kb.
  apply (link_to_aibrief_idempotent Demo.env "demo" brief link note kb s);
    [reflexivity..|].
  left. reflexivity.
Defined.



Lemma export_note_edges_demo :
  let toml := Path_of "ws" // "workspace.toml" in
  let out_dir := mkPath true ["home"; "u"; "shared"] in
  let s := Demo.start (Demo.with_manifest Demo.description_only []) in
  let careless := @mkState Demo.careless (fs s) tt [] [] in
  let source_entries := List.filter has_source (default [] (cfg_repos Demo.pathless)) in
  export_note Demo.env "ws" out_dir toml s
  = (Ret tt,
     printed Demo.env
       [Str.nl +:+ Colors.GREEN +:+ "Export complete!" +:+ Colors.RESET;
        "To set up: cd " +:+ Path_str out_dir +:+ " && ./workspace.py setup " +:+ "ws"] s)
  /\ export_note Demo.careless "ws" out_dir toml careless
     = (Raise (KeyError "path"),
        printed Demo.careless
          ([Str.nl +:+ Colors.YELLOW +:+ "Note: This workspace has "
            +:+ Str.of_nat (length source_entries)
            +:+ " local source entries." +:+ Colors.RESET;
            "Recipients will need to update these paths in workspace.toml:"]
           ++ map source_line [mkRepo (Some "repos/a") (Some "~/a") None]) careless).
Proof.
  intros toml out_dir s careless source_entries. split.
  - apply (proj1 (export_note_edges Demo.env "ws" Demo.description_only
                    (mkConfig None (Some "notes") None) out_dir toml s
                    eq_refl eq_refl)).
    reflexivity.
  - apply (proj2 (export_note_edges Demo.careless "ws" Demo.description_only
                    Demo.pathless out_dir toml careless eq_refl eq_refl)
             [mkRepo (Some "repos/a") (Some "~/a") None]
             (mkRepo None (Some "~/b") None) []); [reflexivity| |reflexivity].
    intros e [<-|[]]. discriminate.
Defined.

Lemma find_workspaces_spec_demo :
  let s := Demo.start Demo.checked in
  let here := mkPath true Demo.work in
  let items := [mkPath true (Demo.work ++ ["ws"])] in
  exists found,
    find_workspaces Demo.env here s = (Ret found, s)
    /\ is_sorted found = true
    /\ forall item,
         In item found
         <-> In item items
             /\ path_is_dir Demo.env item (fs s) = true
             /\ Str.startswith "." (Path_name item) = false
             /\ path_is_dir Demo.env (item // "repos") (fs s) = true.
Proof.
  intros s here items.
  apply (proj1 (find_workspaces_spec Demo.env here s) items).
  vm_compute. reflexivity.
Defined.

Lemma setup_in_place_demo :
  let s0 := Demo.start (Demo.with_manifest (Demo.manifest_text Demo.scenario) []) in
  let s := Demo.start (fs (cmd_setup Demo.env "ws" s0).2) in
  let repos := [mkRepo (Some "repos/a") None (Some "https://x/a.git");
                mkRepo (Some "repos/b") (Some "~/local/b") None] in
  cmd_setup Demo.env "ws" s
  = (Ret tt,
     printed Demo.env
       ([Str.nl +:+ "Setting up .claude symlinks..."]
        ++ (if path_exists Demo.env (Path_of ".claude") (fs s) then []
            else ["Warning: Parent .claude directory not found, skipping symlink setup"])
        ++ [Str.nl +:+ "Setting up repositories..."]
        ++ map already_line repos
        ++ [Str.nl +:+ "Workspace '" +:+ "ws" +:+ "' is ready!"])
       s).
Proof.
  intros s0 s repos.
  apply (setup_in_place Demo.env "ws" (Demo.manifest_text Demo.scenario)
           (Demo.manifest_config Demo.scenario) repos s).
  - vm_compute. reflexivity.
  - vm_compute. reflexivity.
  - reflexivity.
  - reflexivity.
  - vm_compute. reflexivity.
  - vm_compute. reflexivity.
  - vm_compute. reflexivity.
  - left. vm_compute. reflexivity.
  - intros repo [<-|[<-|[]]]; eexists; (split; [reflexivity|vm_compute; reflexivity]).
Defined.



Lemma check_one_workspace_demo :
  let s := Demo.start Demo.checked in
  let here := path_resolve Demo.env (mkPath true (getcwd Demo.env)) (fs s) in
  let ws_path := here // "ws" in
  exists items clean dirty report s',
    path_iterdir Demo.env (ws_path // "repos") (fs s) = inr items
    /\ cmd_check Demo.env (Some "ws") false s = (Ret tt, s')
    /\ clean + dirty <= length items
    /\ out s'
       = out s ++ check_header false
         ++ [Colors.BLUE +:+ "=== Workspace: " +:+ Path_name ws_path +:+ " ==="
             +:+ Colors.RESET]
         ++ report
         ++ [""; Colors.GREEN +:+ "Clean repos:" +:+ Colors.RESET +:+ " "
                 +:+ Str.of_nat clean +:+ " | " +:+ Colors.RED +:+ "Repos with changes:"
                 +:+ Colors.RESET +:+ " " +:+ Str.of_nat dirty].
Proof.
  intros s here ws_path.
  apply (check_one_workspace Demo.env (Some "ws") false s); vm_compute; reflexivity.
Defined.

Lemma export_runs_no_program_demo :
  let s := Demo.start (Demo.with_manifest (Demo.manifest_text Demo.scenario) []) in
  calls (cmd_export Demo.env "ws" "~/shared" s).2 = calls s.
Proof.
  intros s.
  exact (export_runs_no_program Demo.env "ws" "~/shared" s
           (cmd_export Demo.env "ws" "~/shared" s).2
           (cmd_export Demo.env "ws" "~/shared" s).1 (surjective_pairing _)).
Defined.

Lemma setup_runs_only_clones_demo :
  let s := Demo.start (Demo.with_manifest (Demo.manifest_text Demo.scenario) []) in
  exists ran,
    calls (cmd_setup Demo.env "ws" s).2 = calls s ++ ran /\ Forall is_clone ran.
Proof.
  intros s.
  exact (setup_runs_only_clones Demo.env "ws" s (cmd_setup Demo.env "ws" s).2
           (cmd_setup Demo.env "ws" s).1 (surjective_pairing _)).
Defined.

Lemma link_runs_one_search_demo :
  let s := Demo.start Demo.vault in
  calls (cmd_link Demo.env s).2 = calls s
  \/ calls (cmd_link Demo.env s).2 = calls s ++ [vault_search].
Proof.
  intros s.
  exact (link_runs_one_search Demo.env s (cmd_link Demo.env s).2
           (cmd_link Demo.env s).1 (surjective_pairing _)).
Defined.

